(** * SIH25 retrieval backend: a shallow embedding and its properties

    The development follows the two Python sources:

    - [sih_rag/crew_pipeline_simple.py]: two [cachetools.LFUCache] objects,
      the per-session [MemoryManager], the keyword search and the pipeline
      with its query-caching decorator;
    - [sih_rag/main_minimal.py]: the FastAPI handlers over the
      [uploaded_pdfs] dictionary.

    Conventions.  Python [str] values are modelled by [string]; the model is
    exact for ASCII text (characters above 127 are neither whitespace nor
    cased, and the non-ASCII symbols of the message constants appear as their
    UTF-8 bytes).  Python [int] is [Z].  Dictionaries are [gmap]s, except the
    cache contents, kept as insertion-ordered association lists because
    some releases of the library break ties between entries by that order.  Mutable module
    globals are the fields of one [State] record that every operation
    threads; exceptions are the [Raise] results of the [M] monad and keep the
    state changes made before they were raised, as in Python.  Everything the
    program obtains from outside (environment variables, installed modules,
    the PDF parser, the hosted model, temporary-file names, the outcome of
    [os.remove]) is a field of [Env].  Logging and [print] are not modelled. *)

From stdpp Require Import gmap strings list fin_maps pretty sorting.
From Stdlib Require Import ZArith Ascii.
From Stdlib Require Import Strings.Byte.

Local Open Scope string_scope.
Local Open Scope list_scope.

(** ** Python built-ins on strings *)

Definition nl : string := String (ascii_of_nat 10) EmptyString.

(** [str.isspace] on one ASCII character: TAB, LF, VT, FF, CR, the four
    separators FS GS RS US, and the space. *)
Definition isspace (c : ascii) : bool :=
  let n := N_of_ascii c in
  ((9 <=? n) && (n <=? 13) || (28 <=? n) && (n <=? 32))%N.

Definition lower_char (c : ascii) : ascii :=
  let n := N_of_ascii c in
  if ((65 <=? n) && (n <=? 90))%N then ascii_of_N (n + 32) else c.

(** [s.lower()] *)
Fixpoint str_lower (s : string) : string :=
  match s with
  | EmptyString => EmptyString
  | String c r => String (lower_char c) (str_lower r)
  end.

(** [s.split()] with no separator: maximal runs of non-whitespace.  [cur] is
    the word being read. *)
Fixpoint split_from (cur : string) (s : string) : list string :=
  match s with
  | EmptyString => if decide (cur = EmptyString) then [] else [cur]
  | String c r =>
      if isspace c
      then (if decide (cur = EmptyString) then split_from EmptyString r
            else cur :: split_from EmptyString r)
      else split_from (cur +:+ String c EmptyString) r
  end.

Definition str_split (s : string) : list string := split_from EmptyString s.

(** [w in t] for strings: [w] occurs in [t] as a contiguous substring. *)
Fixpoint str_contains (w t : string) : bool :=
  String.prefix w t ||
  match t with
  | EmptyString => false
  | String _ r => str_contains w r
  end.

(** [t.count(w)] for a non-empty [w]: non-overlapping occurrences, scanned
    from the left; [skip] characters of the last match are still to be
    passed. *)
Fixpoint count_from (skip : nat) (w t : string) : Z :=
  match t with
  | EmptyString => 0
  | String _ r =>
      match skip with
      | S k => count_from k w r
      | O => if String.prefix w t
             then (1 + count_from (String.length w - 1) w r)%Z
             else count_from 0 w r
      end
  end.

Definition str_count (w t : string) : Z := count_from 0 w t.

(** [sep.join(l)] *)
Fixpoint str_join (sep : string) (l : list string) : string :=
  match l with
  | [] => EmptyString
  | [x] => x
  | x :: rest => x +:+ sep +:+ str_join sep rest
  end.

(** [s.endswith(suffix)] *)
Fixpoint str_endswith (s suffix : string) : bool :=
  String.eqb s suffix ||
  match s with
  | EmptyString => false
  | String _ r => str_endswith r suffix
  end.

(** [s.lstrip()], [s.rstrip()], [s.strip()] *)
Fixpoint str_lstrip (s : string) : string :=
  match s with
  | EmptyString => EmptyString
  | String c r => if isspace c then str_lstrip r else s
  end.

Fixpoint str_rstrip (s : string) : string :=
  match s with
  | EmptyString => EmptyString
  | String c r =>
      match str_rstrip r with
      | EmptyString => if isspace c then EmptyString else String c EmptyString
      | r' => String c r'
      end
  end.

Definition str_strip (s : string) : string := str_rstrip (str_lstrip s).

(** [os.path.basename] of [posixpath]: what follows the last slash. *)
Fixpoint basename_from (cur : string) (p : string) : string :=
  match p with
  | EmptyString => cur
  | String c r =>
      if Ascii.eqb c "/" then basename_from EmptyString r
      else basename_from (cur +:+ String c EmptyString) r
  end.

Definition basename (p : string) : string := basename_from EmptyString p.

Fixpoint has_slash (s : string) : bool :=
  match s with
  | EmptyString => false
  | String c r => Ascii.eqb c "/" || has_slash r
  end.

(** [sum] of a list of integers. *)
Definition sum_Z (l : list Z) : Z := foldr Z.add 0%Z l.

(** [l[:k]]: a negative bound counts from the end. *)
Definition slice_to {A} (k : Z) (l : list A) : list A :=
  if (0 <=? k)%Z then take (Z.to_nat k) l
  else take (Z.to_nat (Z.of_nat (length l) + k)) l.

(** ** Exceptions and the state-and-exception monad *)

Inductive exn : Type :=
  | Exception (msg : string)
  | ImportError (module_name : string)
  | KeyError (msg : string)
  | ValueError (msg : string)
  | FileExistsError (msg : string)
  | OSError (msg : string)
  | HTTPException (status_code : Z) (detail : string).

(** [str(e)] *)
Definition exn_str (e : exn) : string :=
  match e with
  | Exception m => m
  | ImportError m => "No module named '" +:+ m +:+ "'"
  | KeyError m => "'" +:+ m +:+ "'"
  | ValueError m => m
  | FileExistsError m => m
  | OSError m => m
  | HTTPException c d => pretty c +:+ ": " +:+ d
  end.

Inductive result (A : Type) : Type :=
  | Return (a : A)
  | Raise (e : exn).
Arguments Return {A} a.
Arguments Raise {A} e.

Definition M (S A : Type) : Type := S -> result A * S.

Definition ret {S A} (a : A) : M S A := fun s => (Return a, s).
Definition raise {S A} (e : exn) : M S A := fun s => (Raise e, s).
Definition bind {S A B} (m : M S A) (k : A -> M S B) : M S B :=
  fun s =>
    match m s with
    | (Return a, s') => k a s'
    | (Raise e, s') => (Raise e, s')
    end.
Definition gets {S A} (f : S -> A) : M S A := fun s => (Return (f s), s).
Definition modify {S} (f : S -> S) : M S unit := fun s => (Return tt, f s).
Definition lift {S A} (r : result A) : M S A := fun s => (r, s).

(** [try: m  except <any exception>: handler e] *)
Definition try_except {S A} (m : M S A) (handler : exn -> M S A) : M S A :=
  fun s =>
    match m s with
    | (Return a, s') => (Return a, s')
    | (Raise e, s') => handler e s'
    end.

Notation "x <- m ;; k" := (bind m (fun x => k))
  (at level 100, m at next level, right associativity).
Notation "m ;;; k" := (bind m (fun _ => k))
  (at level 100, right associativity).

(** ** [cachetools.LFUCache]

    The library class keeps the stored values in a dictionary and, next to
    it, how many times each key was set or read: in the releases built on
    [collections.Counter] as minus that number, under the same keys in the
    same order.  Every value has size 1 (no [getsizeof] is passed), so
    [currsize] is the number of entries.  One insertion-ordered list of
    entries stands for both structures.

    The repository pins no release, and the releases differ in one point:
    which entry leaves when several are tied for the fewest accesses.  The
    [Counter] releases remove the oldest of them; later releases keep the
    tied keys in a set and remove whichever the set yields first.  The
    choice is therefore left to the caller of [popitem], as a function
    [pick] from the tied keys (oldest first) to a position among them. *)

Record Entry (K V : Type) : Type := mkEntry {
  ekey : K;
  evalue : V;
  ecounter : Z          (* Counter value: minus the number of accesses *)
}.
Arguments mkEntry {K V}.
Arguments ekey {K V}.
Arguments evalue {K V}.
Arguments ecounter {K V}.

Record LFUCache (K V : Type) : Type := mkLFU {
  maxsize : Z;
  entries : list (Entry K V)
}.
Arguments mkLFU {K V}.
Arguments maxsize {K V}.
Arguments entries {K V}.

(** How often an entry was accessed. *)
Definition accesses {K V} (e : Entry K V) : Z := (- ecounter e)%Z.

Section LFU.
Context {K V : Type} `{EqDecision K}.

Definition LFUCache_init (maxsize : Z) : LFUCache K V := mkLFU maxsize [].

Definition currsize (c : LFUCache K V) : Z := Z.of_nat (length (entries c)).

Fixpoint find_entry (k : K) (l : list (Entry K V)) : option (Entry K V) :=
  match l with
  | [] => None
  | e :: l' => if decide (ekey e = k) then Some e else find_entry k l'
  end.

(** [k in cache]: no counter is touched. *)
Definition cache_contains (k : K) (c : LFUCache K V) : bool :=
  match find_entry k (entries c) with Some _ => true | None => false end.

(** [counter[k] -= 1] on a key that is present. *)
Definition touch (k : K) (l : list (Entry K V)) : list (Entry K V) :=
  map (fun e => if decide (ekey e = k)
                then mkEntry (ekey e) (evalue e) (ecounter e - 1)
                else e) l.

(** [cache[k]] *)
Definition getitem (k : K) : M (LFUCache K V) V :=
  fun c =>
    match find_entry k (entries c) with
    | None => (Raise (KeyError "key"), c)
    | Some e => (Return (evalue e), mkLFU (maxsize c) (touch k (entries c)))
    end.

(** [Counter.most_common(1)]: the first entry, in insertion order, whose
    counter is maximal, which is the oldest least-accessed one. *)
Fixpoint most_common_from (best : Entry K V) (l : list (Entry K V)) : Entry K V :=
  match l with
  | [] => best
  | e :: l' =>
      if (ecounter best <? ecounter e)%Z then most_common_from e l'
      else most_common_from best l'
  end.

Definition del_key (k : K) (l : list (Entry K V)) : list (Entry K V) :=
  filter (fun e => ekey e ≠ k) l.

(** The entries tied with [best] for the fewest accesses, oldest first. *)
Definition tied_with (best : Entry K V) (l : list (Entry K V)) : list (Entry K V) :=
  filter (fun e => ecounter e = ecounter best) l.

(** The entry that leaves: the one of the tied entries at the position
    [pick] names, the oldest where that position does not exist. *)
Definition choose_victim (pick : list K -> nat) (e : Entry K V) (l : list (Entry K V))
  : Entry K V :=
  let best := most_common_from e l in
  let tied := tied_with best (e :: l) in
  match tied !! pick (map ekey tied) with
  | Some victim => victim
  | None => best
  end.

(** [cache.popitem()] *)
Definition popitem (pick : list K -> nat) : M (LFUCache K V) (K * V) :=
  fun c =>
    match entries c with
    | [] => (Raise (KeyError "LFUCache is empty"), c)
    | e :: l =>
        let victim := choose_victim pick e l in
        (Return (ekey victim, evalue victim),
         mkLFU (maxsize c) (del_key (ekey victim) (entries c)))
    end.

(** [while self.currsize + size > maxsize: self.popitem()].  [n] bounds the
    number of rounds; with [n] at least the number of entries the loop ends
    by its own test or by the [KeyError] of [popitem] on an empty cache. *)
Fixpoint make_room (pick : list K -> nat) (n : nat) : M (LFUCache K V) unit :=
  fun c =>
    if (maxsize c <? currsize c + 1)%Z then
      match popitem pick c with
      | (Raise e, c') => (Raise e, c')
      | (Return _, c') =>
          match n with
          | O => (Return tt, c')
          | S n' => make_room pick n' c'
          end
      end
    else (Return tt, c).

(** [data[k] = v; counter[k] -= 1]: an existing key keeps its place. *)
Definition store (k : K) (v : V) (l : list (Entry K V)) : list (Entry K V) :=
  match find_entry k l with
  | Some _ =>
      map (fun e => if decide (ekey e = k)
                    then mkEntry k v (ecounter e - 1) else e) l
  | None => l ++ [mkEntry k v (-1)]
  end.

(** [cache[k] = v] *)
Definition setitem (pick : list K -> nat) (k : K) (v : V) : M (LFUCache K V) unit :=
  fun c =>
    if (maxsize c <? 1)%Z then (Raise (ValueError "value too large"), c)
    else
      match (if cache_contains k c then (Return tt, c)
             else make_room pick (length (entries c)) c) with
      | (Raise e, c') => (Raise e, c')
      | (Return _, c') => (Return tt, mkLFU (maxsize c') (store k v (entries c')))
      end.

(** Keys are unique and the capacity is respected. *)
Definition cache_ok (c : LFUCache K V) : Prop :=
  NoDup (map ekey (entries c)) ∧ (currsize c <= maxsize c)%Z.

Definition least_accessed (victim : Entry K V) (l : list (Entry K V)) : Prop :=
  victim ∈ l ∧ ∀ e, e ∈ l → (accesses victim <= accesses e)%Z.

(** [l'] is [l] with one more access counted for the key [k]: the same
    entries in the same order, with the same keys and values, the entry
    under [k] accessed once more and every other entry as often as before. *)
Definition one_more_access (k : K) (l l' : list (Entry K V)) : Prop :=
  Forall2 (fun e e' =>
             ekey e' = ekey e ∧ evalue e' = evalue e
             ∧ accesses e' = (accesses e + if decide (ekey e = k) then 1 else 0)%Z)
          l l'.
End LFU.

(** ** Data of the pipeline and of the HTTP layer *)

(** One turn of a conversation: [{"role": ..., "content": ...}]. *)
Record Message : Type := mkMessage {
  role : string;
  content : string
}.

(** A session's memory: [{"history": [...], "messages": [...]}]. *)
Record Memory : Type := mkMemory {
  history : list Message;
  messages : list Message
}.

Definition empty_memory : Memory := mkMemory [] [].

(** The value cached per PDF: [{"texts": ..., "pdf_path": ...}]. *)
Record IndexData : Type := mkIndexData {
  texts : list string;
  index_pdf_path : string
}.

(** One metadata dictionary of [extract_relevant_clause]; [meta_score] is
    the constant [1.0]. *)
Record Metadata : Type := mkMetadata {
  meta_content : string;
  meta_pdf_name : string;
  meta_page : string;
  meta_score : Z
}.

(** The dictionary returned by the pipeline. *)
Record Answer : Type := mkAnswer {
  answer : string;
  metadata : list Metadata
}.

(** Key of the answer cache: [(user_query, pdf_path, session_id)]. *)
Definition QueryKey : Type := string * string * string.

(** The world outside the program. *)
Record Env : Type := mkEnv {
  groq_api_key : option string;             (* os.getenv("GROQ_API_KEY") *)
  langchain_groq_importable : bool;         (* from langchain_groq import ChatGroq *)
  ChatGroq_constructs : bool;               (* ChatGroq(...) returns *)
  llm_invoke : string -> option string;     (* llm.invoke(prompt).content, None: raises *)
  pypdf_importable : bool;                  (* from pypdf import PdfReader *)
  PdfReader_texts : string -> list byte -> option (list string);
                                            (* page texts of a file, None: raises *)
  gettempdir : string;                      (* tempfile.gettempdir() *)
  candidate_names : list string;            (* random names tempfile tries, in order *)
  os_remove_error : string -> option string; (* Some msg: os.remove raises OSError *)
  pdf_cache_pick : list string -> nat;      (* which tied entry pdf_cache.popitem removes *)
  query_cache_pick : list QueryKey -> nat   (* which tied entry query_cache.popitem removes *)
}.

(** The mutable globals of both modules, and the files on disk. *)
Record State : Type := mkState {
  uploaded_pdfs : gmap string string;       (* pdf_id -> pdf_path *)
  fs : gmap string (list byte);             (* path -> file content *)
  pdf_cache : LFUCache string IndexData;
  query_cache : LFUCache QueryKey Answer;
  sessions : gmap string Memory             (* memory_manager.sessions *)
}.

Definition initial_state (files : gmap string (list byte)) : State :=
  mkState ∅ files (LFUCache_init 10) (LFUCache_init 100) ∅.

Definition set_uploaded_pdfs (f : gmap string string -> gmap string string) (st : State) : State :=
  mkState (f (uploaded_pdfs st)) (fs st) (pdf_cache st) (query_cache st) (sessions st).
Definition set_fs (f : gmap string (list byte) -> gmap string (list byte)) (st : State) : State :=
  mkState (uploaded_pdfs st) (f (fs st)) (pdf_cache st) (query_cache st) (sessions st).
Definition set_pdf_cache (c : LFUCache string IndexData) (st : State) : State :=
  mkState (uploaded_pdfs st) (fs st) c (query_cache st) (sessions st).
Definition set_query_cache (c : LFUCache QueryKey Answer) (st : State) : State :=
  mkState (uploaded_pdfs st) (fs st) (pdf_cache st) c (sessions st).
Definition set_sessions (f : gmap string Memory -> gmap string Memory) (st : State) : State :=
  mkState (uploaded_pdfs st) (fs st) (pdf_cache st) (query_cache st) (f (sessions st)).

(** Run an operation of a cache on the cache held in the state. *)
Definition on_pdf_cache {A} (m : M (LFUCache string IndexData) A) : M State A :=
  fun st => let (r, c) := m (pdf_cache st) in (r, set_pdf_cache c st).
Definition on_query_cache {A} (m : M (LFUCache QueryKey Answer) A) : M State A :=
  fun st => let (r, c) := m (query_cache st) in (r, set_query_cache c st).

(** ** [crew_pipeline_simple.py] *)

(** [MemoryManager.get_memory] *)
Definition get_memory (session_id : string) : M State Memory :=
  fun st =>
    match sessions st !! session_id with
    | Some memory => (Return memory, st)
    | None => (Return empty_memory,
               set_sessions (insert session_id empty_memory) st)
    end.

(** [MemoryManager.reset_memory] *)
Definition MemoryManager_reset_memory (session_id : string) : M State unit :=
  fun st =>
    match sessions st !! session_id with
    | Some _ => (Return tt, set_sessions (insert session_id empty_memory) st)
    | None => (Return tt, st)
    end.

(** [reset_memory] *)
Definition reset_memory (session_id : string) : M State unit :=
  MemoryManager_reset_memory session_id.

(** [memory["history"].append(msg)], where [memory] is the dictionary stored
    for [session_id]: the append is seen through [sessions]. *)
Definition history_append (session_id : string) (msg : Message) : M State unit :=
  modify (set_sessions
    (alter (fun m => mkMemory (history m ++ [msg]) (messages m)) session_id)).

(** [load_pdf_chunks] *)
Definition load_pdf_chunks (env : Env) (pdf_path : string) : M State (list string) :=
  fun st =>
    if negb (pypdf_importable env) then (Raise (ImportError "pypdf"), st)
    else
      match fs st !! pdf_path with
      | None => (Return [], st)
      | Some bytes =>
          match PdfReader_texts env pdf_path bytes with
          | Some page_texts => (Return page_texts, st)
          | None => (Return [], st)
          end
      end.

(** [get_or_create_indexes].  The [isinstance(doc, str)] filter keeps every
    element of a list of strings. *)
Definition get_or_create_indexes (env : Env) (pdf_path : string) : M State IndexData :=
  in_cache <- gets (fun st => cache_contains pdf_path (pdf_cache st)) ;;
  if in_cache then on_pdf_cache (getitem pdf_path)
  else
    chunks <- load_pdf_chunks env pdf_path ;;
    let index_data := mkIndexData chunks pdf_path in
    on_pdf_cache (setitem (pdf_cache_pick env) pdf_path index_data) ;;;
    ret index_data.

(** The score of one text: [sum(1 for word in query_words if word in text_lower)]. *)
Definition score (query_words : list string) (text : string) : Z :=
  let text_lower := str_lower text in
  sum_Z (map (fun _ => 1%Z)
             (filter (fun word => str_contains word text_lower = true) query_words)).

Definition query_words (query : string) : list string := str_split (str_lower query).

(** The loop that fills [scored_texts]. *)
Definition scored_texts (words : list string) (texts : list string) : list (Z * string) :=
  fold_left (fun acc text =>
               let s := score words text in
               if (0 <? s)%Z then acc ++ [(s, text)] else acc)
            texts [].

(** [list.sort(key=lambda x: x[0], reverse=True)]: a stable sort by
    decreasing score.  Going through the list from its end, each element is
    put in front of the first element whose score is not larger. *)
Fixpoint insert_desc (x : Z * string) (l : list (Z * string)) : list (Z * string) :=
  match l with
  | [] => [x]
  | y :: l' => if (x.1 <? y.1)%Z then y :: insert_desc x l' else x :: l
  end.

Definition sort_desc (l : list (Z * string)) : list (Z * string) :=
  foldr insert_desc [] l.

(** The ranking behind [simple_text_search]: the texts that score, by
    decreasing score. *)
Definition ranked (words : list string) (texts : list string) : list string :=
  map snd (sort_desc (scored_texts words texts)).

(** [simple_text_search] *)
Definition simple_text_search (query : string) (texts : list string) (k : Z) : list string :=
  let words := query_words query in
  map snd (slice_to k (sort_desc (scored_texts words texts))).

(** [enumerate(relevant_passages)] turned into the metadata list. *)
Fixpoint metadata_from (pdf_path : string) (i : Z) (passages : list string) : list Metadata :=
  match passages with
  | [] => []
  | passage :: rest =>
      mkMetadata passage (basename pdf_path) ("Page " +:+ pretty (i + 1)%Z) 1
      :: metadata_from pdf_path (i + 1) rest
  end.

(** What [extract_relevant_clause] makes of the texts of the index: the
    passages joined by blank lines and one metadata entry per passage.
    [simple_text_search] raises nothing on a list of strings, so the
    [except] branch around it is never taken. *)
Definition relevant_clause (pdf_path user_query : string) (k : Z) (texts : list string)
  : string * list Metadata :=
  let relevant_passages := simple_text_search user_query texts k in
  match relevant_passages with
  | [] => (EmptyString, [])
  | _ => (str_join (nl +:+ nl) relevant_passages,
          metadata_from pdf_path 0 relevant_passages)
  end.

(** [extract_relevant_clause] *)
Definition extract_relevant_clause (env : Env) (pdf_path user_query : string) (k : Z)
  : M State (string * list Metadata) :=
  indexes <- get_or_create_indexes env pdf_path ;;
  ret (relevant_clause pdf_path user_query k (texts indexes)).

(** The text put before the query when the session has a history. *)
Definition history_text (chat_history : list Message) : string :=
  match chat_history with
  | [] => EmptyString
  | _ =>
      fold_left (fun text msg => text +:+ role msg +:+ ": " +:+ content msg +:+ nl)
                chat_history
                (nl +:+ nl +:+ "Conversation History:" +:+ nl)
  end.

(** ["\n".join(...) or "No metadata available."] *)
Definition metadata_text (metadata_info : list Metadata) : string :=
  let joined :=
    str_join nl (map (fun m => "- Source: " +:+ meta_pdf_name m +:+ ", Page: " +:+ meta_page m)
                     metadata_info) in
  if decide (joined = EmptyString) then "No metadata available." else joined.

Definition prompt_template (history_text user_query context metadata_text : string) : string :=
  str_join nl [
    EmptyString;
    "You are an intelligent assistant working for the Department of Higher Education (MoE).";
    "Your role is to help officials quickly retrieve, compare, and interpret data, rules,";
    "schemes, projects, and policies from multiple authentic documents.";
    EmptyString;
    "Objectives:";
    "1. Find all relevant information from provided contexts — even if scattered or overlapping.";
    "2. Combine related clauses logically, avoid repetition, and highlight any conflicting info.";
    "3. Maintain traceability by citing document names and page numbers.";
    "4. Always remain factual, concise, and policy-accurate.";
    "5. If data is insufficient or unclear, clearly state that instead of guessing.";
    "6. Use conversation history to provide contextual answers and maintain coherent dialogue.";
    history_text;
    EmptyString;
    "User Query:";
    user_query;
    EmptyString;
    "Retrieved Contexts:";
    context;
    EmptyString;
    "Source Metadata:";
    metadata_text;
    EmptyString ].

(** The hard-coded fallback answer; [context[:500]] is the first 500
    characters of the context. *)
Definition mock_answer (user_query context : string) : string :=
  str_join nl [
    EmptyString;
    "**Mock Response (Groq API not configured)**";
    EmptyString;
    "Question: " +:+ user_query;
    EmptyString;
    "Retrieved Context:";
    String.substring 0 500 context +:+ "...";
    EmptyString;
    "**Note**: This is a simplified response. To enable full AI capabilities:";
    "1. Set GROQ_API_KEY environment variable";
    "2. Install langchain_groq: `pip install langchain_groq`";
    "3. Install other ML dependencies for vector search";
    EmptyString;
    "Current capabilities:";
    "✅ PDF upload and storage";
    "✅ Basic text search";
    "✅ Session management";
    "✅ File caching";
    "⚠️ AI-powered responses (requires API key)";
    "⚠️ Vector embeddings (requires ML libraries)";
    EmptyString ].

(** [if groq_api_key:] an unset variable and the empty string are false. *)
Definition api_key_set (env : Env) : bool :=
  match groq_api_key env with
  | Some key => negb (String.eqb key EmptyString)
  | None => false
  end.

Definition user_message (user_query : string) : Message := mkMessage "User" user_query.
Definition assistant_message (text : string) : Message := mkMessage "Assistant" text.

(** The body of the [try] block of [run_full_pipeline]. *)
Definition ask_groq (env : Env) (user_query session_id prompt : string)
    (metadata_info : list Metadata) : M State Answer :=
  if negb (langchain_groq_importable env) then raise (ImportError "langchain_groq")
  else if negb (ChatGroq_constructs env) then raise (Exception "ChatGroq")
  else
    history_append session_id (user_message user_query) ;;;
    match llm_invoke env prompt with
    | None => raise (Exception "llm.invoke")
    | Some llm_response_content =>
        history_append session_id (assistant_message llm_response_content) ;;;
        ret (mkAnswer llm_response_content metadata_info)
    end.

(** What follows the [try] block: the mock response. *)
Definition answer_with_mock (user_query session_id context : string)
    (metadata_info : list Metadata) : M State Answer :=
  let mock := mock_answer user_query context in
  history_append session_id (user_message user_query) ;;;
  history_append session_id (assistant_message mock) ;;;
  ret (mkAnswer mock metadata_info).

(** The function that [@cache_query] decorates. *)
Definition run_full_pipeline_func (env : Env) (user_query pdf_path session_id : string)
  : M State Answer :=
  found <- extract_relevant_clause env pdf_path user_query 10 ;;
  let context := found.1 in
  let metadata_info := found.2 in
  memory <- get_memory session_id ;;
  let chat_history := history memory in
  let prompt := prompt_template (history_text chat_history) user_query context
                                (metadata_text metadata_info) in
  if api_key_set env then
    try_except (ask_groq env user_query session_id prompt metadata_info)
               (fun _ => answer_with_mock user_query session_id context metadata_info)
  else answer_with_mock user_query session_id context metadata_info.

(** The decorator [cache_query]; [env] only says which of several tied
    entries the answer cache removes. *)
Definition cache_query (env : Env) (func : string -> string -> string -> M State Answer)
    (user_query pdf_path session_id : string) : M State Answer :=
  let cache_key : QueryKey := (user_query, pdf_path, session_id) in
  hit <- gets (fun st => cache_contains cache_key (query_cache st)) ;;
  if hit then on_query_cache (getitem cache_key)
  else
    result <- func user_query pdf_path session_id ;;
    on_query_cache (setitem (query_cache_pick env) cache_key result) ;;;
    ret result.

(** [run_full_pipeline], as the module exports it. *)
Definition run_full_pipeline (env : Env) : string -> string -> string -> M State Answer :=
  cache_query env (run_full_pipeline_func env).

(** ** [main_minimal.py] *)

(** What the handlers see of a FastAPI [UploadFile]. *)
Record UploadFile : Type := mkUploadFile {
  filename : string;
  file_bytes : list byte               (* what [await file.read()] returns *)
}.

Record UploadResponse : Type := mkUploadResponse {
  up_pdf_id : string;
  up_filename : string;
  up_message : string
}.

Record MockMetadata : Type := mkMockMetadata {
  mock_content : string;
  mock_pdf_name : string;
  mock_page : string
}.

Record QueryResponse : Type := mkQueryResponse {
  resp_answer : string;
  resp_metadata : list MockMetadata;
  resp_session_id : string
}.

Record DeleteResponse : Type := mkDeleteResponse {
  del_message : string;
  del_pdf_id : string
}.

Definition max_size : Z := 10 * 1024 * 1024.

(** The path [tempfile] builds from a random name: directory, prefix
    ["tmp"], name, suffix [".pdf"]. *)
Definition temp_path (env : Env) (name : string) : string :=
  gettempdir env +:+ "/" +:+ "tmp" +:+ name +:+ ".pdf".

Fixpoint first_unused (env : Env) (files : gmap string (list byte)) (names : list string)
  : option string :=
  match names with
  | [] => None
  | name :: rest =>
      match files !! temp_path env name with
      | None => Some (temp_path env name)
      | Some _ => first_unused env files rest
      end
  end.

(** [tempfile.NamedTemporaryFile(delete=False, suffix=".pdf")]: the first
    candidate path that does not exist is created, empty; without one the
    library raises [FileExistsError]. *)
Definition NamedTemporaryFile (env : Env) : M State string :=
  fun st =>
    match first_unused env (fs st) (candidate_names env) with
    | Some path => (Return path, set_fs (insert path []) st)
    | None =>
        (Raise (FileExistsError "[Errno 17] No usable temporary file name found"), st)
    end.

(** [tmp.write(content)] *)
Definition tmp_write (path : string) (content : list byte) : M State unit :=
  modify (set_fs (insert path content)).

(** [except HTTPException: raise], [except Exception as e: raise
    HTTPException(500, prefix + str(e))]. *)
Definition http_errors {A} (prefix : string) (m : M State A) : M State A :=
  try_except m (fun e =>
    match e with
    | HTTPException _ _ => raise e
    | _ => raise (HTTPException 500 (prefix +:+ exn_str e))
    end).

(** [upload_pdf] *)
Definition upload_pdf (env : Env) (file : UploadFile) : M State UploadResponse :=
  http_errors "❌ Failed to upload: " (
    if negb (str_endswith (filename file) ".pdf")
    then raise (HTTPException 400 "❌ Only PDF files allowed")
    else
      let content := file_bytes file in
      if (max_size <? Z.of_nat (length content))%Z
      then raise (HTTPException 400
             ("❌ File too large (max " +:+ pretty (max_size `div` (1024 * 1024))%Z +:+ "MB)"))
      else
        pdf_path <- NamedTemporaryFile env ;;
        tmp_write pdf_path content ;;;
        let pdf_id := basename pdf_path in
        modify (set_uploaded_pdfs (insert pdf_id pdf_path)) ;;;
        ret (mkUploadResponse pdf_id (filename file)
               "✅ PDF uploaded successfully (minimal version)")).

(** The f-string of [query_pdf], before [.strip()]. *)
Definition query_mock_template (question pdf_id session_id : string) : string :=
  str_join nl [
    EmptyString;
    "This is a mock response for testing purposes.";
    EmptyString;
    "Question: " +:+ question;
    "PDF: " +:+ pdf_id;
    "Session: " +:+ session_id;
    EmptyString;
    "The full RAG pipeline with vector search, BM25, and LLM integration is not yet available in this minimal version. ";
    "To enable full functionality, please install the required ML dependencies:";
    "- langchain";
    "- chromadb  ";
    "- sentence-transformers";
    "- transformers";
    "- langchain_groq";
    EmptyString;
    "For now, this endpoint confirms that:";
    "✅ PDF upload is working";
    "✅ File storage is working  ";
    "✅ API endpoints are accessible";
    "✅ Session management is ready";
    "        " ].

(** [query_pdf] *)
Definition query_pdf (pdf_id question session_id : string) : M State QueryResponse :=
  known <- gets (fun st => uploaded_pdfs st !! pdf_id) ;;
  match known with
  | None =>
      raise (HTTPException 404
        ("❌ pdf_id '" +:+ pdf_id +:+ "' not found. Please upload the PDF first!"))
  | Some pdf_path =>
      try_except (
        let mock := query_mock_template question pdf_id session_id in
        ret (mkQueryResponse (str_strip mock)
               [mkMockMetadata "Mock response" pdf_id "N/A"]
               session_id))
      (fun e => raise (HTTPException 500 ("❌ Query failed: " +:+ exn_str e)))
  end.

(** [os.remove(path)] *)
Definition os_remove (env : Env) (path : string) : M State unit :=
  match os_remove_error env path with
  | Some msg => raise (OSError msg)
  | None => modify (set_fs (delete path))
  end.

(** [delete_pdf] *)
Definition delete_pdf (env : Env) (pdf_id : string) : M State DeleteResponse :=
  known <- gets (fun st => uploaded_pdfs st !! pdf_id) ;;
  match known with
  | None => raise (HTTPException 404 ("❌ pdf_id '" +:+ pdf_id +:+ "' not found"))
  | Some pdf_path =>
      modify (set_uploaded_pdfs (delete pdf_id)) ;;;       (* uploaded_pdfs.pop *)
      try_except (
        on_disk <- gets (fun st => fs st !! pdf_path) ;;
        (match on_disk with
         | Some _ => os_remove env pdf_path
         | None => ret tt
         end) ;;;
        ret (mkDeleteResponse ("✅ Deleted " +:+ pdf_id) pdf_id))
      (fun e => raise (HTTPException 500 ("❌ Failed to delete: " +:+ exn_str e)))
  end.

(** The dictionary returned by [health_check]. *)
Record HealthResponse : Type := mkHealthResponse {
  health_status : string;
  health_message : string;
  health_uploaded_pdfs : Z
}.

(** [health_check] *)
Definition health_check : M State HealthResponse :=
  gets (fun st => mkHealthResponse "running" "Backend is up!"
                    (Z.of_nat (size (uploaded_pdfs st)))).

(** The dictionary returned by [list_pdfs]. *)
Record ListResponse : Type := mkListResponse {
  list_count : Z;
  list_pdfs_ids : list string
}.

(** [list_pdfs].  A Python dictionary lists its keys in insertion order,
    which the map does not record: [list_pdfs_ids] holds the same keys, in
    the order of the map. *)
Definition list_pdfs : M State ListResponse :=
  gets (fun st => mkListResponse (Z.of_nat (size (uploaded_pdfs st)))
                    (map fst (map_to_list (uploaded_pdfs st)))).

(** ** Predicates on strings used in the statements *)

Fixpoint str_forallb (f : ascii -> bool) (s : string) : bool :=
  match s with
  | EmptyString => true
  | String c r => f c && str_forallb f r
  end.

(** [s] is empty or made of whitespace only. *)
Definition all_space (s : string) : bool := str_forallb isspace s.

(** [s] holds no whitespace. *)
Definition no_space (s : string) : bool := str_forallb (fun c => negb (isspace c)) s.

(** ** Calls, reachable states and invariants *)

(** The operations the two modules offer. *)
Inductive Call : Type :=
  | CallRunFullPipeline (user_query pdf_path session_id : string)
  | CallExtractRelevantClause (pdf_path user_query : string) (k : Z)
  | CallGetOrCreateIndexes (pdf_path : string)
  | CallGetMemory (session_id : string)
  | CallResetMemory (session_id : string)
  | CallUploadPdf (file : UploadFile)
  | CallQueryPdf (pdf_id question session_id : string)
  | CallDeletePdf (pdf_id : string).

(** The state a call leaves, whether it returns or raises. *)
Definition exec (env : Env) (call : Call) (st : State) : State :=
  match call with
  | CallRunFullPipeline user_query pdf_path session_id =>
      (run_full_pipeline env user_query pdf_path session_id st).2
  | CallExtractRelevantClause pdf_path user_query k =>
      (extract_relevant_clause env pdf_path user_query k st).2
  | CallGetOrCreateIndexes pdf_path => (get_or_create_indexes env pdf_path st).2
  | CallGetMemory session_id => (get_memory session_id st).2
  | CallResetMemory session_id => (reset_memory session_id st).2
  | CallUploadPdf file => (upload_pdf env file st).2
  | CallQueryPdf pdf_id question session_id => (query_pdf pdf_id question session_id st).2
  | CallDeletePdf pdf_id => (delete_pdf env pdf_id st).2
  end.

(** The temporary directory is [dir] and the random names are file names. *)
Definition env_ok (dir : string) (env : Env) : Prop :=
  gettempdir env = dir ∧ Forall (fun name => has_slash name = false) (candidate_names env).

(** States the process can be in when only its own calls change the files
    it created, in a temporary directory [dir]. *)
Inductive reachable (dir : string) : State -> Prop :=
  | reachable_init files : reachable dir (initial_state files)
  | reachable_step env call st :
      env_ok dir env -> reachable dir st -> reachable dir (exec env call st).

(** Every upload identifier is the base name of its file, which lies in the
    temporary directory and exists. *)
Definition uploads_ok (dir : string) (st : State) : Prop :=
  ∀ pdf_id pdf_path,
    uploaded_pdfs st !! pdf_id = Some pdf_path ->
    pdf_path = dir +:+ "/" +:+ pdf_id ∧ is_Some (fs st !! pdf_path).

(** Both caches have their declared capacity, unique keys and a size within
    the capacity. *)
Definition caches_ok (st : State) : Prop :=
  maxsize (pdf_cache st) = 10%Z ∧ cache_ok (pdf_cache st) ∧
  maxsize (query_cache st) = 100%Z ∧ cache_ok (query_cache st).

(** The history of a session, empty when the session has no memory yet. *)
Definition session_history (st : State) (session_id : string) : list Message :=
  match sessions st !! session_id with
  | Some memory => history memory
  | None => []
  end.

(** The page texts [load_pdf_chunks] gets for a path when [pypdf] is
    there: none for a missing file and for a file the reader fails on. *)
Definition extracted_texts (env : Env) (st : State) (pdf_path : string) : list string :=
  match fs st !! pdf_path with
  | Some bytes => default [] (PdfReader_texts env pdf_path bytes)
  | None => []
  end.

(** The [messages] list of a session, empty when the session has no memory. *)
Definition session_messages (st : State) (session_id : string) : list Message :=
  match sessions st !! session_id with
  | Some memory => messages memory
  | None => []
  end.

(** The ways one run of the pipeline gets its answer: the hosted model
    answered, the call to it raised, or it was not called (no API key, no
    client library, or no client object). *)
Inductive Outcome : Type :=
  | LLMAnswered (llm_response_content : string)
  | LLMRaised
  | LLMNotCalled.

Definition llm_outcome (env : Env) (prompt : string) : Outcome :=
  if api_key_set env && langchain_groq_importable env && ChatGroq_constructs env
  then match llm_invoke env prompt with
       | Some llm_response_content => LLMAnswered llm_response_content
       | None => LLMRaised
       end
  else LLMNotCalled.

(** The prompt a run builds in state [st] from what the search found. *)
Definition pipeline_prompt (st : State) (user_query session_id : string)
    (found : string * list Metadata) : string :=
  prompt_template (history_text (session_history st session_id)) user_query
                  found.1 (metadata_text found.2).

(** The answer of a run and the messages it appends to the history. *)
Definition answer_and_messages (outcome : Outcome) (user_query context : string)
  : string * list Message :=
  let mock := mock_answer user_query context in
  match outcome with
  | LLMAnswered llm_response_content =>
      (llm_response_content,
       [user_message user_query; assistant_message llm_response_content])
  | LLMRaised =>
      (mock, [user_message user_query; user_message user_query; assistant_message mock])
  | LLMNotCalled =>
      (mock, [user_message user_query; assistant_message mock])
  end.

(** The value a computation returned, [d] if it raised. *)
Definition returned {A} (d : A) (r : result A) : A :=
  match r with
  | Return a => a
  | Raise _ => d
  end.

(** ** Sample environments and states *)

(** No API key and no client library; [pypdf] reads two pages from any
    file; temporary files go to [/tmp]; [os.remove] works. *)
Definition sample_env : Env :=
  mkEnv None false false (fun _ => None) true
        (fun _ _ => Some ["hello world"; "bye"])
        "/tmp" ["abc"; "def"] (fun _ => None) (fun _ => 0) (fun _ => 0).

(** The same without [pypdf]. *)
Definition sample_env_no_pypdf : Env :=
  mkEnv None false false (fun _ => None) false
        (fun _ _ => Some ["hello world"; "bye"])
        "/tmp" ["abc"; "def"] (fun _ => None) (fun _ => 0) (fun _ => 0).

(** The same with an [os.remove] that raises. *)
Definition sample_env_remove_fails : Env :=
  mkEnv None false false (fun _ => None) true
        (fun _ _ => Some ["hello world"; "bye"])
        "/tmp" ["abc"; "def"] (fun _ => Some "[Errno 13] Permission denied")
        (fun _ => 0) (fun _ => 0).

(** An API key, a client library and a model call that raises. *)
Definition sample_env_llm_raises : Env :=
  mkEnv (Some "gsk") true true (fun _ => None) true
        (fun _ _ => Some ["hello world"; "bye"])
        "/tmp" ["abc"; "def"] (fun _ => None) (fun _ => 0) (fun _ => 0).

Definition sample_file : UploadFile := mkUploadFile "report.pdf" ["%"; "P"; "D"; "F"]%byte.

(** The state after one upload into an empty process. *)
Definition sample_uploaded : State :=
  exec sample_env (CallUploadPdf sample_file) (initial_state ∅).

(** The state after one question about the uploaded file. *)
Definition sample_asked : State :=
  exec sample_env (CallRunFullPipeline "hello there" "/tmp/tmpabc.pdf" "s1") sample_uploaded.

Definition run_calls (env : Env) (calls : list Call) (st : State) : State :=
  fold_left (fun st call => exec env call st) calls st.

(** Both caches full, no entry having left either, with one entry in each
    that was accessed less often than all the others, and is the newest.
    Eleven sessions ask one question about each of nine files, then one
    session asks it about a tenth file, [/tmp/doc0.pdf]; then the first 99
    questions are asked again.  The PDF cache counts 11 accesses for each of
    the nine files and 1 for the tenth; the answer cache counts 2 accesses
    for each of the 99 repeated questions and 1 for the last one. *)
Definition sample_paths : list string :=
  map (fun i : nat => "/tmp/doc" +:+ pretty i +:+ ".pdf") (seq 1 9).

Definition sample_questions : list Call :=
  flat_map (fun path =>
              map (fun i : nat => CallRunFullPipeline "fee" path ("session" +:+ pretty i))
                  (seq 0 11))
           sample_paths.

Definition sample_last_question : Call :=
  CallRunFullPipeline "fee" "/tmp/doc0.pdf" "session0".

Definition sample_calls : list Call :=
  sample_questions ++ [sample_last_question] ++ sample_questions.

Definition sample_env_picking (pdf_pick : list string -> nat)
    (query_pick : list QueryKey -> nat) : Env :=
  mkEnv None false false (fun _ => None) true
        (fun _ _ => Some ["hello world"; "bye"])
        "/tmp" ["abc"; "def"] (fun _ => None) pdf_pick query_pick.

Definition sample_full : State := run_calls sample_env sample_calls (initial_state ∅).

(** An API key, a client library and a model that answers every prompt. *)
Definition sample_env_llm_answers : Env :=
  mkEnv (Some "gsk") true true (fun _ => Some "The fee is 10.") true
        (fun _ _ => Some ["hello world"; "bye"])
        "/tmp" ["abc"; "def"] (fun _ => None) (fun _ => 0) (fun _ => 0).

(** ** Statements taken from the specification, to compare with the code *)

(** Following the words of the specification, "the total count of
    keyword-match occurrences obtained by string splitting the query and
    substring counting in the text": every occurrence of every query word
    in the text is counted. *)
Definition occurrence_count (words : list string) (text : string) : Z :=
  sum_Z (map (fun word => str_count word (str_lower text)) words).

Definition score_counts_occurrences : Prop :=
  ∀ query text, score (query_words query) text = occurrence_count (query_words query) text.

(** Following the words of the specification, the query endpoint answers an
    uploaded identifier with what the search-and-model pipeline computes. *)
Definition query_pdf_runs_pipeline : Prop :=
  ∀ env st pdf_id question session_id pdf_path,
    uploaded_pdfs st !! pdf_id = Some pdf_path ->
    ∃ found st' response st'',
      run_full_pipeline env question pdf_path session_id st = (Return found, st') ∧
      query_pdf pdf_id question session_id st = (Return response, st'') ∧
      resp_answer response = answer found.

(** Following the words of the specification, [load_pdf_chunks] returns the
    empty list, without raising, for a missing file and for a file the
    reader fails on. *)
Definition load_pdf_chunks_never_raises : Prop :=
  ∀ env pdf_path st,
    (fs st !! pdf_path = None ∨
     ∃ bytes, fs st !! pdf_path = Some bytes ∧ PdfReader_texts env pdf_path bytes = None) ->
    load_pdf_chunks env pdf_path st = (Return [], st).

(** * Properties *)

(** ** Strings and the search score *)

Lemma sum_Z_ones {A} (l : list A) : sum_Z (map (fun _ => 1%Z) l) = Z.of_nat (length l).
Proof.
  induction l as [|x l IH]; [reflexivity|].
  cbn [map length]. unfold sum_Z in *. cbn [foldr]. rewrite IH. lia.
Qed.

Lemma score_is_length words text :
  score words text =
  Z.of_nat (length (filter (fun word => str_contains word (str_lower text) = true) words)).
Proof. unfold score. apply sum_Z_ones. Qed.

Lemma score_nonneg words text : (0 <= score words text)%Z.
Proof. rewrite score_is_length. lia. Qed.

Lemma score_le_words words text : (score words text <= Z.of_nat (length words))%Z.
Proof.
  rewrite score_is_length.
  pose proof (length_filter (fun word => str_contains word (str_lower text) = true) words).
  lia.
Qed.

Lemma split_from_nonempty cur s : Forall (fun w => w ≠ EmptyString) (split_from cur s).
Proof.
  revert cur. induction s as [|c r IH]; intros cur; cbn [split_from].
  - destruct (decide (cur = EmptyString)); [constructor|].
    constructor; [assumption|constructor].
  - destruct (isspace c); [|apply IH].
    destruct (decide (cur = EmptyString)); [apply IH|].
    constructor; [assumption|apply IH].
Qed.

Lemma query_words_nonempty query : Forall (fun w => w ≠ EmptyString) (query_words query).
Proof. apply split_from_nonempty. Qed.

Lemma count_from_nonneg skip w t : (0 <= count_from skip w t)%Z.
Proof.
  revert skip. induction t as [|c r IH]; intros skip; cbn [count_from]; [lia|].
  destruct skip as [|k]; [|apply IH].
  destruct (String.prefix w (String c r)); [|apply IH].
  specialize (IH (String.length w - 1)%nat). lia.
Qed.

Lemma str_contains_count w t :
  w ≠ EmptyString -> str_contains w t = true -> (1 <= str_count w t)%Z.
Proof.
  intros Hw. unfold str_count.
  induction t as [|c r IH]; cbn [str_contains count_from]; intros H.
  - destruct w; [congruence|discriminate].
  - destruct (String.prefix w (String c r)) eqn:Hp.
    + pose proof (count_from_nonneg (String.length w - 1) w r). lia.
    + cbn in H. auto.
Qed.

Lemma score_le_occurrences words text :
  Forall (fun w => w ≠ EmptyString) words ->
  (score words text <= occurrence_count words text)%Z.
Proof.
  unfold score, occurrence_count, sum_Z.
  induction 1 as [|w words Hw _ IH]; [reflexivity|].
  rewrite filter_cons. cbn [map foldr].
  destruct (decide (str_contains w (str_lower text) = true)) as [Hc|Hc].
  - cbn [map foldr]. pose proof (str_contains_count _ _ Hw Hc). lia.
  - pose proof (count_from_nonneg 0 w (str_lower text)). unfold str_count in *. lia.
Qed.

(** C4, as amended.  The score of a text is the number of query words
    (the query lower-cased and split at whitespace, a repeated word counted
    each time) that occur in the lower-cased text as a substring.  A word
    adds one however often it occurs, so the score is at most the number of
    query words and at most the number of occurrences. *)
Theorem score_counts_matching_words query text :
  let words := query_words query in
  score words text =
    Z.of_nat (length (filter (fun word => str_contains word (str_lower text) = true) words))
  ∧ (0 <= score words text <= Z.of_nat (length words))%Z
  ∧ (score words text <= occurrence_count words text)%Z.
Proof.
  intros words. split; [apply score_is_length|]. split.
  - split; [apply score_nonneg|apply score_le_words].
  - apply score_le_occurrences, query_words_nonempty.
Qed.

(** C4, as stated, fails: for the query [a] and the text [a a] the word
    occurs twice and the score is one. *)
Lemma score_counts_occurrences_fails : ¬ score_counts_occurrences.
Proof.
  intros H. specialize (H "a" "a a"). vm_compute in H. discriminate.
Qed.

(** ** The keyword search *)

Section Search.
Variable words : list string.

(** A text with its score, as the loop stores it; the texts that score;
    the order of the sorted list. *)
Local Abbreviation tag := (fun text : string => (score words text, text)).
Local Abbreviation hit := (fun text : string => (0 < score words text)%Z).
Local Abbreviation before := (fun x y : Z * string => (y.1 <= x.1)%Z).

Lemma scored_texts_from acc texts :
  fold_left (fun acc text =>
               let s := score words text in
               if (0 <? s)%Z then acc ++ [(s, text)] else acc) texts acc
  = acc ++ map tag (filter hit texts).
Proof.
  revert acc. induction texts as [|t texts IH]; intros acc; cbn [fold_left].
  - now rewrite app_nil_r.
  - rewrite IH, filter_cons. cbn beta zeta.
    destruct (Z.ltb_spec 0 (score words t)) as [Hlt|Hge].
    + rewrite decide_True by assumption. cbn [map]. now rewrite <- app_assoc.
    + rewrite decide_False by lia. reflexivity.
Qed.

Lemma scored_texts_tagged texts :
  scored_texts words texts = map tag (filter hit texts).
Proof. unfold scored_texts. now rewrite scored_texts_from. Qed.

Lemma insert_desc_perm x l : insert_desc x l ≡ₚ x :: l.
Proof.
  induction l as [|y l IH]; cbn [insert_desc]; [reflexivity|].
  destruct (x.1 <? y.1)%Z; [|reflexivity].
  rewrite IH. apply perm_swap.
Qed.

Lemma sort_desc_perm l : sort_desc l ≡ₚ l.
Proof.
  induction l as [|x l IH]; [reflexivity|].
  cbn [sort_desc foldr]. fold (sort_desc l).
  now rewrite insert_desc_perm, IH.
Qed.

Lemma insert_desc_hd a x l :
  before a x -> HdRel before a l -> HdRel before a (insert_desc x l).
Proof.
  intros Hax Hal. destruct l as [|y l]; cbn [insert_desc]; [now constructor|].
  inversion Hal; subst. destruct (x.1 <? y.1)%Z; now constructor.
Qed.

Lemma insert_desc_sorted x l : Sorted before l -> Sorted before (insert_desc x l).
Proof.
  induction 1 as [|y l Hl IH Hy]; cbn [insert_desc]; [repeat constructor|].
  destruct (Z.ltb_spec x.1 y.1) as [Hlt|Hge].
  - constructor; [assumption|]. apply insert_desc_hd; [|assumption].
    cbn. lia.
  - constructor; [now constructor|]. constructor. cbn. lia.
Qed.

Lemma sort_desc_sorted l : Sorted before (sort_desc l).
Proof.
  induction l as [|x l IH]; [constructor|].
  cbn [sort_desc foldr]. now apply insert_desc_sorted.
Qed.

(** Stability: among the elements of one score the order is kept. *)
Lemma insert_desc_stable s x l :
  filter (fun p : Z * string => p.1 = s) (insert_desc x l)
  = filter (fun p : Z * string => p.1 = s) (x :: l).
Proof.
  induction l as [|y l IH]; cbn [insert_desc]; [reflexivity|].
  destruct (Z.ltb_spec x.1 y.1) as [Hlt|Hge]; [|reflexivity].
  rewrite (filter_cons _ y), IH, !filter_cons.
  destruct (decide (y.1 = s)), (decide (x.1 = s)); try reflexivity. lia.
Qed.

Lemma sort_desc_stable s l :
  filter (fun p : Z * string => p.1 = s) (sort_desc l)
  = filter (fun p : Z * string => p.1 = s) l.
Proof.
  induction l as [|x l IH]; [reflexivity|].
  cbn [sort_desc foldr]. fold (sort_desc l).
  now rewrite insert_desc_stable, !filter_cons, IH.
Qed.

Lemma tagged_untag (l : list (Z * string)) :
  Forall (fun p => p.1 = score words p.2) l -> map tag (map snd l) = l.
Proof.
  induction 1 as [|[s t] l Hp _ IH]; [reflexivity|].
  cbn [map snd]. rewrite IH. cbn in *. now subst.
Qed.

Lemma sort_desc_tagged texts :
  Forall (fun p => p.1 = score words p.2) (sort_desc (map tag texts)).
Proof.
  rewrite sort_desc_perm. apply Forall_forall. intros p Hp.
  apply list_elem_of_fmap in Hp as (t & -> & _). reflexivity.
Qed.

Lemma filter_score_tag s l :
  map snd (filter (fun p : Z * string => p.1 = s) (map tag l))
  = filter (fun t => score words t = s) l.
Proof.
  induction l as [|t l IH]; [reflexivity|].
  cbn [map]. rewrite !filter_cons. cbn [fst].
  destruct (decide (score words t = s)); cbn [map snd]; now rewrite IH.
Qed.

Lemma sorted_untag (l : list string) :
  Sorted before (map tag l) ->
  Sorted (fun a b => (score words b <= score words a)%Z) l.
Proof.
  induction l as [|a l IH]; intros Hs; [constructor|].
  cbn [map] in Hs. apply Sorted_inv in Hs as [Hs Hhd].
  constructor; [now apply IH|].
  destruct l as [|b l]; constructor.
  cbn [map] in Hhd. apply HdRel_inv in Hhd. exact Hhd.
Qed.

Lemma ranked_perm texts : ranked words texts ≡ₚ filter hit texts.
Proof.
  unfold ranked. rewrite scored_texts_tagged, sort_desc_perm, map_map.
  cbn. now rewrite map_id.
Qed.

Lemma ranked_sorted texts :
  Sorted (fun a b => (score words b <= score words a)%Z) (ranked words texts).
Proof.
  unfold ranked. rewrite scored_texts_tagged.
  apply sorted_untag.
  rewrite (tagged_untag _ (sort_desc_tagged (filter hit texts))).
  apply sort_desc_sorted.
Qed.

Lemma ranked_stable s texts :
  filter (fun t => score words t = s) (ranked words texts)
  = filter (fun t => score words t = s) (filter hit texts).
Proof.
  unfold ranked. rewrite scored_texts_tagged.
  rewrite <- (filter_score_tag s (filter hit texts)).
  rewrite <- (sort_desc_stable s (map tag (filter hit texts))).
  rewrite <- (tagged_untag _ (sort_desc_tagged (filter hit texts))) at 2.
  now rewrite filter_score_tag.
Qed.
End Search.

Lemma slice_to_nonneg {A} (k : Z) (l : list A) :
  (0 <= k)%Z -> slice_to k l = take (Z.to_nat k) l.
Proof. intros Hk. unfold slice_to. destruct (Z.leb_spec 0 k); [reflexivity|lia]. Qed.

Lemma simple_text_search_take query texts k :
  (0 <= k)%Z ->
  simple_text_search query texts k = take (Z.to_nat k) (ranked (query_words query) texts).
Proof.
  intros Hk. unfold simple_text_search, ranked.
  rewrite slice_to_nonneg by assumption. symmetry. apply firstn_map.
Qed.

Lemma simple_text_search_prefix query texts k :
  simple_text_search query texts k `prefix_of` ranked (query_words query) texts.
Proof.
  unfold simple_text_search, ranked, slice_to.
  destruct (0 <=? k)%Z; rewrite <- firstn_map; apply prefix_take.
Qed.

(** C3.  [simple_text_search] returns the beginning of a ranking that
    holds exactly the texts with a positive score (each as often as it is
    given), in non-increasing order of score, texts of equal score in their
    given order; for a bound [k] that is not negative it returns the first
    [k] elements of that ranking.  A text whose score is zero is not
    returned. *)
Theorem simple_text_search_ranked query texts k :
  let words := query_words query in
  ∃ ranking,
    ranking ≡ₚ filter (fun text => (0 < score words text)%Z) texts
    ∧ Sorted (fun a b => (score words b <= score words a)%Z) ranking
    ∧ (∀ s, filter (fun text => score words text = s) ranking
            = filter (fun text => score words text = s)
                     (filter (fun text => (0 < score words text)%Z) texts))
    ∧ simple_text_search query texts k `prefix_of` ranking
    ∧ ((0 <= k)%Z -> simple_text_search query texts k = take (Z.to_nat k) ranking)
    ∧ (∀ text, score words text = 0%Z -> text ∉ simple_text_search query texts k).
Proof.
  intros words. exists (ranked words texts).
  split; [apply ranked_perm|]. split; [apply ranked_sorted|].
  split; [intros s; apply ranked_stable|].
  split; [apply simple_text_search_prefix|].
  split; [apply simple_text_search_take|].
  intros text Hzero Hin.
  destruct (simple_text_search_prefix query texts k) as [rest Hrest].
  assert (text ∈ ranked words texts) as Hranked
    by (unfold words; rewrite Hrest; apply elem_of_app; now left).
  rewrite ranked_perm in Hranked.
  apply list_elem_of_filter in Hranked as [Hpos _]. lia.
Qed.

Lemma simple_text_search_ranked_witness :
  (0 <= 2)%Z ∧
  ∃ ranking,
    ranking ≡ₚ filter (fun text => (0 < score (query_words "fee tax") text)%Z)
                      ["no match"; "fee"; "tax and fee"; "Tax"]
    ∧ Sorted (fun a b => (score (query_words "fee tax") b
                          <= score (query_words "fee tax") a)%Z) ranking
    ∧ simple_text_search "fee tax" ["no match"; "fee"; "tax and fee"; "Tax"] 2
      = take (Z.to_nat 2) ranking.
Proof.
  split; [lia|].
  destruct (simple_text_search_ranked "fee tax" ["no match"; "fee"; "tax and fee"; "Tax"] 2)
    as (ranking & Hperm & Hsorted & _ & _ & Htake & _).
  exists ranking. split; [exact Hperm|]. split; [exact Hsorted|].
  apply Htake. lia.
Defined.

Example simple_text_search_example :
  simple_text_search "fee tax" ["no match"; "fee"; "tax and fee"; "Tax"; "FEE TAX"] 3
  = ["tax and fee"; "FEE TAX"; "fee"].
Proof. reflexivity. Qed.

(** A negative bound is counted from the end of the ranking, as Python
    slices do. *)
Example simple_text_search_negative_bound :
  simple_text_search "fee tax" ["no match"; "fee"; "tax and fee"; "Tax"; "FEE TAX"] (-1)
  = ["tax and fee"; "FEE TAX"; "fee"].
Proof. reflexivity. Qed.

(** ** The LFU cache *)

Section LFUFacts.
Context {K V : Type} `{EqDecision K}.
Implicit Types (c : LFUCache K V) (l : list (Entry K V)) (e : Entry K V) (k : K).

Lemma find_entry_Some k l e : find_entry k l = Some e -> e ∈ l ∧ ekey e = k.
Proof.
  induction l as [|x l IH]; cbn [find_entry]; [discriminate|].
  destruct (decide (ekey x = k)) as [Hk|Hk]; intros Hf.
  - injection Hf as <-. split; [left|assumption].
  - destruct (IH Hf). split; [now right|assumption].
Qed.

Lemma find_entry_None k l : find_entry k l = None <-> k ∉ map ekey l.
Proof.
  induction l as [|x l IH]; cbn [find_entry map].
  - split; [intros _; apply not_elem_of_nil|reflexivity].
  - rewrite not_elem_of_cons. destruct (decide (ekey x = k)) as [Hk|Hk].
    + split; [discriminate|]. intros [Hne _]. congruence.
    + rewrite IH. split; [intros Hn; split; [congruence|assumption]|tauto].
Qed.

Lemma cache_contains_false k c :
  cache_contains k c = false <-> k ∉ map ekey (entries c).
Proof.
  unfold cache_contains. rewrite <- find_entry_None.
  destruct (find_entry k (entries c)); split; congruence.
Qed.

Lemma touch_keys k l : map ekey (touch k l) = map ekey l.
Proof.
  unfold touch. rewrite map_map. apply map_ext. intros e.
  now destruct (decide (ekey e = k)).
Qed.

Lemma touch_length k l : length (touch k l) = length l.
Proof. unfold touch. apply length_map. Qed.

Lemma most_common_from_spec best l :
  most_common_from best l ∈ best :: l ∧
  ∀ e, e ∈ best :: l -> (ecounter e <= ecounter (most_common_from best l))%Z.
Proof.
  revert best. induction l as [|x l IH]; intros best; cbn [most_common_from].
  - split; [left|]. intros e He. apply list_elem_of_singleton in He. subst. lia.
  - destruct (Z.ltb_spec (ecounter best) (ecounter x)) as [Hlt|Hge].
    + destruct (IH x) as [Hin Hmax]. split; [now right|].
      intros e He. apply elem_of_cons in He as [->|He]; [|now apply Hmax].
      specialize (Hmax x (list_elem_of_here _ _)). lia.
    + destruct (IH best) as [Hin Hmax]. split.
      * apply elem_of_cons in Hin as [->|Hin]; [left|right; now right].
      * intros e He. apply elem_of_cons in He as [->|He]; [apply Hmax; left|].
        apply elem_of_cons in He as [->|He]; [|apply Hmax; now right].
        specialize (Hmax best (list_elem_of_here _ _)). lia.
Qed.

(** The entry [popitem] picks is a least-accessed one. *)
Lemma most_common_least_accessed best l :
  least_accessed (most_common_from best l) (best :: l).
Proof.
  destruct (most_common_from_spec best l) as [Hin Hmax]. split; [assumption|].
  intros e He. specialize (Hmax e He). unfold accesses. lia.
Qed.

(** Whatever [pick] answers, the entry that leaves is a least-accessed one. *)
Lemma choose_victim_spec (pick : list K -> nat) best l :
  choose_victim pick best l ∈ best :: l ∧
  ∀ e, e ∈ best :: l -> (ecounter e <= ecounter (choose_victim pick best l))%Z.
Proof.
  destruct (most_common_from_spec best l) as [Hin Hmax]. unfold choose_victim.
  cbv zeta.
  destruct (tied_with (most_common_from best l) (best :: l)
              !! pick (map ekey (tied_with (most_common_from best l) (best :: l))))
    as [victim|] eqn:Hpick; [|now split].
  apply list_elem_of_lookup_2 in Hpick. unfold tied_with in Hpick.
  apply list_elem_of_filter in Hpick as [Hcount Hvictim].
  split; [assumption|]. intros e He. rewrite Hcount. now apply Hmax.
Qed.

Lemma choose_victim_least_accessed (pick : list K -> nat) best l :
  least_accessed (choose_victim pick best l) (best :: l).
Proof.
  destruct (choose_victim_spec pick best l) as [Hin Hmax]. split; [assumption|].
  intros e He. specialize (Hmax e He). unfold accesses. lia.
Qed.

(** The first of the entries tied with the most common one is that one. *)
Lemma tied_with_most_common best l :
  head (tied_with (most_common_from best l) (best :: l)) = Some (most_common_from best l).
Proof.
  unfold tied_with. revert best. induction l as [|x l IH]; intros best.
  - cbn [most_common_from]. now rewrite filter_cons, decide_True.
  - cbn [most_common_from].
    destruct (Z.ltb_spec (ecounter best) (ecounter x)) as [Hlt|Hge].
    + destruct (most_common_from_spec x l) as [_ Hmax].
      specialize (Hmax x (list_elem_of_here _ _)).
      rewrite filter_cons, decide_False by lia. apply IH.
    + specialize (IH best). destruct (most_common_from_spec best l) as [_ Hmax].
      specialize (Hmax best (list_elem_of_here _ _)).
      rewrite filter_cons in IH |- *.
      destruct (decide (ecounter best = ecounter (most_common_from best l))) as [Heq|Hne];
        [exact IH|].
      rewrite filter_cons, decide_False by lia. exact IH.
Qed.

(** The [Counter] releases: the oldest of the tied entries leaves. *)
Lemma choose_victim_oldest best l :
  choose_victim (fun _ => 0) best l = most_common_from best l.
Proof.
  unfold choose_victim. cbv zeta. rewrite <- head_lookup.
  now rewrite tied_with_most_common.
Qed.

Lemma del_key_keys k l : map ekey (del_key k l) = filter (fun k' => k' ≠ k) (map ekey l).
Proof.
  unfold del_key. induction l as [|x l IH]; [reflexivity|].
  cbn [map]. rewrite !filter_cons.
  destruct (decide (ekey x ≠ k)); cbn [map]; now rewrite IH.
Qed.

Lemma del_key_NoDup k l : NoDup (map ekey l) -> NoDup (map ekey (del_key k l)).
Proof. rewrite del_key_keys. apply NoDup_filter. Qed.

Lemma del_key_absent k l : k ∉ map ekey l -> del_key k l = l.
Proof.
  unfold del_key. induction l as [|x l IH]; [reflexivity|].
  cbn [map]. rewrite not_elem_of_cons. intros [Hne Hl].
  rewrite filter_cons, decide_True by congruence. now rewrite IH.
Qed.

Lemma del_key_length k l :
  NoDup (map ekey l) -> k ∈ map ekey l -> S (length (del_key k l)) = length l.
Proof.
  unfold del_key. induction l as [|x l IH]; cbn [map]; intros Hnd Hin.
  - now apply elem_of_nil in Hin.
  - apply NoDup_cons in Hnd as [Hx Hnd]. rewrite filter_cons.
    destruct (decide (ekey x ≠ k)) as [Hne|Heq].
    + apply elem_of_cons in Hin as [->|Hin]; [congruence|].
      cbn [length]. now rewrite IH.
    + apply dec_stable in Heq. subst k.
      fold (del_key (ekey x) l). now rewrite del_key_absent.
Qed.

Lemma del_key_gone k l : k ∉ map ekey (del_key k l).
Proof.
  rewrite del_key_keys. intros Hin. apply list_elem_of_filter in Hin as [Hne _].
  congruence.
Qed.

Lemma store_absent k v l :
  k ∉ map ekey l -> store k v l = l ++ [mkEntry k v (-1)].
Proof. intros Hk. unfold store. apply find_entry_None in Hk. now rewrite Hk. Qed.

Lemma store_present_keys k v l :
  k ∈ map ekey l -> map ekey (store k v l) = map ekey l.
Proof.
  intros Hk. unfold store. destruct (find_entry k l) eqn:Hf.
  - rewrite map_map. apply map_ext. intros e0.
    now destruct (decide (ekey e0 = k)).
  - apply find_entry_None in Hf. contradiction.
Qed.

Lemma store_finds k v l : ∃ n, find_entry k (store k v l) = Some (mkEntry k v n).
Proof.
  unfold store. destruct (find_entry k l) as [e0|] eqn:Hf.
  - induction l as [|x l IH]; cbn [find_entry] in Hf; [discriminate|].
    cbn [map find_entry]. destruct (decide (ekey x = k)) as [Hk|Hk].
    + cbn [ekey]. rewrite decide_True by reflexivity. eauto.
    + rewrite decide_False by assumption. auto.
  - exists (-1)%Z. induction l as [|x l IH]; cbn [find_entry app] in *.
    + now rewrite decide_True.
    + destruct (decide (ekey x = k)); [discriminate|auto].
Qed.
End LFUFacts.

Section LFUOperations.
Context {K V : Type} `{EqDecision K}.
Implicit Types (c : LFUCache K V) (l : list (Entry K V)) (e : Entry K V) (k : K) (v : V).
Implicit Types (pick : list K -> nat).

Lemma getitem_ok k c r c' :
  getitem k c = (r, c') -> cache_ok c -> cache_ok c' ∧ maxsize c' = maxsize c.
Proof.
  unfold getitem, cache_ok, currsize. intros Hg [Hnd Hsz].
  destruct (find_entry k (entries c)); injection Hg as <- <-; cbn [entries maxsize].
  - now rewrite touch_keys, touch_length.
  - auto.
Qed.

Lemma getitem_present k c :
  cache_contains k c = true ->
  ∃ e, find_entry k (entries c) = Some e ∧
       getitem k c = (Return (evalue e), mkLFU (maxsize c) (touch k (entries c))).
Proof.
  unfold cache_contains, getitem.
  destruct (find_entry k (entries c)) as [e|]; [eauto|discriminate].
Qed.

Lemma make_room_not_full pick n c :
  (currsize c < maxsize c)%Z -> make_room pick n c = (Return tt, c).
Proof.
  intros Hlt. destruct n; cbn [make_room];
    destruct (Z.ltb_spec (maxsize c) (currsize c + 1)); (reflexivity || lia).
Qed.

(** On a full cache the loop runs once and removes a least-accessed entry. *)
Lemma make_room_full pick c :
  NoDup (map ekey (entries c)) -> (1 <= maxsize c)%Z -> currsize c = maxsize c ->
  ∃ victim,
    least_accessed victim (entries c) ∧
    make_room pick (length (entries c)) c
    = (Return tt, mkLFU (maxsize c) (del_key (ekey victim) (entries c))).
Proof.
  intros Hnd Hmax Hfull. destruct c as [m l]. cbn [entries maxsize] in *.
  unfold currsize in Hfull. cbn [entries] in Hfull.
  destruct l as [|e l]; [cbn in Hfull; lia|].
  exists (choose_victim pick e l). split; [apply choose_victim_least_accessed|].
  cbn [length make_room]. unfold currsize at 1. cbn [entries maxsize].
  destruct (Z.ltb_spec m (Z.of_nat (length (e :: l)) + 1)) as [_|Hge]; [|lia].
  unfold popitem. cbn [entries maxsize].
  apply make_room_not_full. unfold currsize. cbn [entries maxsize].
  pose proof (del_key_length (ekey (choose_victim pick e l)) (e :: l) Hnd) as Hlen.
  destruct (choose_victim_spec pick e l) as [Hin _].
  assert (ekey (choose_victim pick e l) ∈ map ekey (e :: l)) as Hk
    by (apply (list_elem_of_fmap_2 ekey), Hin).
  specialize (Hlen Hk). lia.
Qed.

(** The bound on the rounds is never what ends the loop: with as many
    rounds allowed as there are entries, and room for one value at all, the
    loop returns by its own test, having made room. *)
Lemma make_room_ends pick n c :
  NoDup (map ekey (entries c)) -> (1 <= maxsize c)%Z -> length (entries c) <= n ->
  ∃ c', make_room pick n c = (Return tt, c')
        ∧ maxsize c' = maxsize c ∧ (currsize c' < maxsize c')%Z
        ∧ NoDup (map ekey (entries c')).
Proof.
  revert c. induction n as [|n IH]; intros c Hnd Hmax Hlen.
  - assert (currsize c = 0%Z) as Hzero
      by (unfold currsize; destruct (entries c); [reflexivity|cbn in Hlen; lia]).
    exists c. cbn [make_room].
    destruct (Z.ltb_spec (maxsize c) (currsize c + 1)); [lia|].
    repeat split; try assumption; lia.
  - cbn [make_room].
    destruct (Z.ltb_spec (maxsize c) (currsize c + 1)) as [Hfull|Hroom].
    + destruct c as [m l]. cbn [entries maxsize] in *.
      destruct l as [|e l]; [unfold currsize in Hfull; cbn in Hfull; lia|].
      unfold popitem. cbn [entries maxsize].
      destruct (choose_victim_spec pick e l) as [Hin _].
      pose proof (del_key_length (ekey (choose_victim pick e l)) (e :: l) Hnd
                    (list_elem_of_fmap_2 ekey _ _ Hin)) as Hdel.
      destruct (IH (mkLFU m (del_key (ekey (choose_victim pick e l)) (e :: l))))
        as (c' & Hc' & Hm' & Hsz' & Hnd').
      * now apply del_key_NoDup.
      * assumption.
      * cbn [entries]. lia.
      * exists c'. auto.
    + exists c. repeat split; try assumption; lia.
Qed.

(** [cache[k] = v] on a key that is present replaces the value in place. *)
Lemma setitem_present pick k v c :
  (1 <= maxsize c)%Z -> cache_contains k c = true ->
  setitem pick k v c = (Return tt, mkLFU (maxsize c) (store k v (entries c))).
Proof.
  intros Hmax Hin. unfold setitem.
  destruct (Z.ltb_spec (maxsize c) 1); [lia|]. now rewrite Hin.
Qed.

(** [cache[k] = v] on a new key, with room left: the entry is added. *)
Lemma setitem_room pick k v c :
  (1 <= maxsize c)%Z -> cache_contains k c = false -> (currsize c < maxsize c)%Z ->
  setitem pick k v c = (Return tt, mkLFU (maxsize c) (entries c ++ [mkEntry k v (-1)])).
Proof.
  intros Hmax Hin Hroom. unfold setitem.
  destruct (Z.ltb_spec (maxsize c) 1); [lia|]. rewrite Hin.
  rewrite make_room_not_full by assumption.
  apply cache_contains_false in Hin. now rewrite store_absent.
Qed.

(** [cache[k] = v] on a new key, the cache being full: a least-accessed
    entry leaves and the new one is added. *)
Lemma setitem_full pick k v c :
  NoDup (map ekey (entries c)) -> (1 <= maxsize c)%Z ->
  cache_contains k c = false -> currsize c = maxsize c ->
  ∃ victim,
    least_accessed victim (entries c) ∧
    setitem pick k v c
    = (Return tt, mkLFU (maxsize c)
                    (del_key (ekey victim) (entries c) ++ [mkEntry k v (-1)])).
Proof.
  intros Hnd Hmax Hin Hfull.
  destruct (make_room_full pick c Hnd Hmax Hfull) as (victim & Hleast & Hroom).
  exists victim. split; [assumption|]. unfold setitem.
  destruct (Z.ltb_spec (maxsize c) 1); [lia|]. rewrite Hin, Hroom.
  cbn [entries maxsize]. rewrite store_absent; [reflexivity|].
  apply cache_contains_false in Hin. rewrite del_key_keys.
  intros Hk. apply list_elem_of_filter in Hk as [_ Hk]. contradiction.
Qed.

(** An insertion returns and keeps the cache within its capacity. *)
Lemma setitem_ok pick k v c :
  cache_ok c -> (1 <= maxsize c)%Z ->
  ∃ c', setitem pick k v c = (Return tt, c') ∧ cache_ok c' ∧ maxsize c' = maxsize c.
Proof.
  intros [Hnd Hsz] Hmax. destruct (cache_contains k c) eqn:Hin.
  - eexists. split; [now apply setitem_present|]. cbn [maxsize]. split; [|reflexivity].
    assert (k ∈ map ekey (entries c)) as Hk.
    { destruct (decide (k ∈ map ekey (entries c))) as [|Hn]; [assumption|].
      apply cache_contains_false in Hn. congruence. }
    unfold cache_ok, currsize in *. cbn [entries maxsize].
    rewrite store_present_keys by assumption. split; [assumption|].
    rewrite <- (length_map ekey), store_present_keys, length_map by assumption.
    assumption.
  - pose proof Hin as Hk. apply cache_contains_false in Hk.
    destruct (decide (currsize c = maxsize c)) as [Hfull|Hroom].
    + destruct (setitem_full pick k v c Hnd Hmax Hin Hfull) as (victim & [Hv _] & ->).
      eexists. split; [reflexivity|]. cbn [maxsize]. split; [|reflexivity].
      unfold cache_ok, currsize in *. cbn [entries maxsize].
      assert (ekey victim ∈ map ekey (entries c)) as Hvk
        by (apply (list_elem_of_fmap_2 ekey), Hv).
      pose proof (del_key_length _ _ Hnd Hvk) as Hlen.
      rewrite map_app, length_app. cbn [map length ekey]. split; [|lia].
      apply NoDup_app. split; [now apply del_key_NoDup|]. split.
      * intros x Hx Hx'. apply list_elem_of_singleton in Hx'. subst x.
        rewrite del_key_keys in Hx. apply list_elem_of_filter in Hx as [_ Hx].
        contradiction.
      * apply NoDup_singleton.
    + eexists. split; [apply setitem_room; [assumption..|lia]|].
      cbn [maxsize]. split; [|reflexivity].
      unfold cache_ok, currsize in *. cbn [entries maxsize].
      rewrite map_app, length_app. cbn [map length ekey]. split; [|lia].
      apply NoDup_app. split; [assumption|]. split; [|apply NoDup_singleton].
      intros x Hx Hx'. apply list_elem_of_singleton in Hx'. now subst x.
Qed.
End LFUOperations.

Lemma setitem_keeps_ok {K V} `{EqDecision K} (pick : list K -> nat) (k : K) (v : V) c r c' :
  setitem pick k v c = (r, c') -> cache_ok c -> cache_ok c' ∧ maxsize c' = maxsize c.
Proof.
  intros Hs Hok. destruct (Z.ltb_spec (maxsize c) 1) as [Hsmall|Hmax].
  - unfold setitem in Hs. destruct (Z.ltb_spec (maxsize c) 1); [|lia].
    injection Hs as <- <-. auto.
  - destruct (setitem_ok pick k v c Hok Hmax) as (c1 & Hs1 & Hok1 & Hm1).
    rewrite Hs1 in Hs. injection Hs as <- <-. auto.
Qed.

Lemma find_entry_contains {K V} `{EqDecision K} (k : K) (c : LFUCache K V) e :
  find_entry k (entries c) = Some e -> cache_contains k c = true.
Proof. unfold cache_contains. now intros ->. Qed.

(** A read counts one access for the key read and changes nothing else. *)
Lemma touch_counts {K V} `{EqDecision K} (k : K) (l : list (Entry K V)) :
  Forall2 (fun e e' =>
             ekey e' = ekey e ∧ evalue e' = evalue e
             ∧ accesses e' = (accesses e + if decide (ekey e = k) then 1 else 0)%Z)
          l (touch k l).
Proof.
  induction l as [|x l IH]; [constructor|].
  cbn [touch map]. constructor; [|exact IH].
  unfold accesses. destruct (decide (ekey x = k)); cbn; repeat split; lia.
Qed.

(** Entries are told apart by their keys. *)
Lemma entry_by_key {K V} (l : list (Entry K V)) e e' :
  NoDup (map ekey l) -> e ∈ l -> e' ∈ l -> ekey e = ekey e' -> e = e'.
Proof.
  induction l as [|x l IH]; cbn [map]; intros Hnd He He' Hk.
  - now apply elem_of_nil in He.
  - apply NoDup_cons in Hnd as [Hx Hnd].
    apply elem_of_cons in He as [->|He]; apply elem_of_cons in He' as [->|He'].
    + reflexivity.
    + destruct Hx. rewrite Hk. now apply (list_elem_of_fmap_2 ekey).
    + destruct Hx. rewrite <- Hk. now apply (list_elem_of_fmap_2 ekey).
    + now apply IH.
Qed.

(** Whichever least-accessed entry leaves, an entry that was accessed more
    often than some other entry stays. *)
Lemma more_accessed_stays {K V} `{EqDecision K} (l : list (Entry K V)) victim e e' :
  NoDup (map ekey l) -> least_accessed victim l ->
  e ∈ l -> e' ∈ l -> (accesses e' < accesses e)%Z ->
  e ∈ del_key (ekey victim) l.
Proof.
  intros Hnd [Hv Hleast] He He' Hlt. unfold del_key.
  apply list_elem_of_filter. split; [|assumption].
  intros Hk. apply (entry_by_key l e victim Hnd He Hv) in Hk. subst e.
  specialize (Hleast e' He'). lia.
Qed.

(** ** Session memory *)

Lemma set_pdf_cache_same st : set_pdf_cache (pdf_cache st) st = st.
Proof. now destruct st. Qed.

Lemma set_query_cache_same st : set_query_cache (query_cache st) st = st.
Proof. now destruct st. Qed.

Lemma session_history_insert st session_id memory other :
  session_history (set_sessions (insert session_id memory) st) other
  = if decide (session_id = other) then history memory else session_history st other.
Proof.
  unfold session_history, set_sessions. cbn [sessions].
  rewrite lookup_insert. now destruct (decide (session_id = other)).
Qed.

(** [get_memory] returns the stored memory, creating an empty one when the
    session is new; no history changes. *)
Lemma get_memory_spec session_id st :
  ∃ memory m',
    get_memory session_id st = (Return memory, set_sessions (fun _ => m') st)
    ∧ m' !! session_id = Some memory
    ∧ history memory = session_history st session_id
    ∧ messages memory = session_messages st session_id
    ∧ (∀ other, other ≠ session_id -> m' !! other = sessions st !! other).
Proof.
  unfold get_memory, session_history, session_messages.
  destruct (sessions st !! session_id) as [memory|] eqn:Hs.
  - exists memory, (sessions st). repeat split; try assumption.
    now destruct st.
  - exists empty_memory, (<[session_id := empty_memory]> (sessions st)).
    repeat split.
    + apply lookup_insert_eq.
    + intros other Hne. now apply lookup_insert_ne.
Qed.

(** [memory["history"].append(msg)] on a session that has a memory. *)
Lemma history_append_spec session_id msg st memory :
  sessions st !! session_id = Some memory ->
  history_append session_id msg st
  = (Return tt,
     set_sessions (fun _ => <[session_id := mkMemory (history memory ++ [msg]) (messages memory)]>
                              (sessions st)) st).
Proof.
  intros Hs. unfold history_append, modify, set_sessions. do 2 f_equal.
  apply map_eq. intros other. rewrite lookup_alter, lookup_insert.
  destruct (decide (session_id = other)) as [<-|Hne]; [now rewrite Hs|reflexivity].
Qed.

(** ** The pipeline *)

Lemma load_pdf_chunks_state env pdf_path st : (load_pdf_chunks env pdf_path st).2 = st.
Proof.
  unfold load_pdf_chunks. destruct (negb (pypdf_importable env)); [reflexivity|].
  destruct (fs st !! pdf_path) as [bytes|]; [|reflexivity].
  now destruct (PdfReader_texts env pdf_path bytes).
Qed.

(** With [pypdf] installed, [load_pdf_chunks] returns: the page texts, or
    the empty list for a missing file and for a reader failure. *)
Lemma load_pdf_chunks_importable env pdf_path st :
  pypdf_importable env = true ->
  load_pdf_chunks env pdf_path st = (Return (extracted_texts env st pdf_path), st).
Proof.
  intros Hi. unfold load_pdf_chunks, extracted_texts. rewrite Hi. cbn [negb].
  destruct (fs st !! pdf_path) as [bytes|]; [|reflexivity].
  now destruct (PdfReader_texts env pdf_path bytes).
Qed.

(** Without [pypdf] every call raises, whatever the path. *)
Lemma load_pdf_chunks_import_error env pdf_path st :
  pypdf_importable env = false ->
  load_pdf_chunks env pdf_path st = (Raise (ImportError "pypdf"), st).
Proof. intros Hi. unfold load_pdf_chunks. now rewrite Hi. Qed.

(** [get_or_create_indexes] changes the PDF cache only, and keeps it well
    formed. *)
Lemma get_or_create_indexes_frame env pdf_path st r st' :
  get_or_create_indexes env pdf_path st = (r, st') ->
  cache_ok (pdf_cache st) ->
  ∃ c', st' = set_pdf_cache c' st ∧ cache_ok c' ∧ maxsize c' = maxsize (pdf_cache st).
Proof.
  unfold get_or_create_indexes, bind, gets, ret, on_pdf_cache. intros Hg Hok.
  destruct (cache_contains pdf_path (pdf_cache st)).
  - destruct (getitem pdf_path (pdf_cache st)) as [r1 c1] eqn:Hget.
    injection Hg as <- <-. exists c1. split; [reflexivity|].
    eapply getitem_ok; eassumption.
  - pose proof (load_pdf_chunks_state env pdf_path st) as Hl.
    destruct (load_pdf_chunks env pdf_path st) as [[chunks|e] st1]; cbn in Hl; subst st1.
    + destruct (setitem (pdf_cache_pick env) pdf_path (mkIndexData chunks pdf_path) (pdf_cache st))
        as [r1 c1] eqn:Hset.
      exists c1. split; [destruct r1; now injection Hg as <- <-|].
      eapply setitem_keeps_ok; eassumption.
    + injection Hg as <- <-. exists (pdf_cache st).
      split; [now rewrite set_pdf_cache_same|auto].
Qed.

(** It returns as soon as [pypdf] can be imported or the PDF is cached. *)
Lemma get_or_create_indexes_returns env pdf_path st :
  pypdf_importable env = true ∨ cache_contains pdf_path (pdf_cache st) = true ->
  cache_ok (pdf_cache st) -> (1 <= maxsize (pdf_cache st))%Z ->
  ∃ indexes st', get_or_create_indexes env pdf_path st = (Return indexes, st').
Proof.
  intros Hcan Hok Hmax. unfold get_or_create_indexes, bind, gets, ret, on_pdf_cache.
  destruct (cache_contains pdf_path (pdf_cache st)) eqn:Hin.
  - destruct (getitem_present _ _ Hin) as (e & _ & ->). eauto.
  - destruct Hcan as [Hi|?]; [|discriminate].
    rewrite (load_pdf_chunks_importable _ _ _ Hi).
    match goal with |- context [@setitem ?K ?V ?I ?p ?k ?v ?c] =>
      destruct (@setitem_ok K V I p k v c Hok Hmax) as (c1 & -> & _) end.
    eauto.
Qed.

(** On a cache miss the index holds what [load_pdf_chunks] read. *)
Lemma get_or_create_indexes_miss env pdf_path st chunks :
  cache_contains pdf_path (pdf_cache st) = false ->
  load_pdf_chunks env pdf_path st = (Return chunks, st) ->
  get_or_create_indexes env pdf_path st
  = (let (r, c) := setitem (pdf_cache_pick env) pdf_path (mkIndexData chunks pdf_path)
                              (pdf_cache st) in
     match r with
     | Return _ => (Return (mkIndexData chunks pdf_path), set_pdf_cache c st)
     | Raise e => (Raise e, set_pdf_cache c st)
     end).
Proof.
  intros Hin Hl. unfold get_or_create_indexes, bind, gets, ret, on_pdf_cache.
  rewrite Hin, Hl.
  destruct (setitem (pdf_cache_pick env) pdf_path (mkIndexData chunks pdf_path)
                    (pdf_cache st)) as [[[]|e] c];
    reflexivity.
Qed.

(** A path that is in the PDF cache is answered from the cache. *)
Lemma get_or_create_indexes_hit env pdf_path st e :
  find_entry pdf_path (entries (pdf_cache st)) = Some e ->
  get_or_create_indexes env pdf_path st
  = (Return (evalue e),
     set_pdf_cache (mkLFU (maxsize (pdf_cache st)) (touch pdf_path (entries (pdf_cache st))))
                   st).
Proof.
  intros Hf. unfold get_or_create_indexes, bind, gets, on_pdf_cache.
  rewrite (find_entry_contains _ _ _ Hf). unfold getitem. now rewrite Hf.
Qed.

Lemma extract_relevant_clause_unfold env pdf_path user_query k st :
  extract_relevant_clause env pdf_path user_query k st
  = match get_or_create_indexes env pdf_path st with
    | (Return indexes, st1) =>
        (Return (relevant_clause pdf_path user_query k (texts indexes)), st1)
    | (Raise e, st1) => (Raise e, st1)
    end.
Proof. reflexivity. Qed.

Lemma extract_relevant_clause_frame env pdf_path user_query k st r st' :
  extract_relevant_clause env pdf_path user_query k st = (r, st') ->
  cache_ok (pdf_cache st) ->
  ∃ c', st' = set_pdf_cache c' st ∧ cache_ok c' ∧ maxsize c' = maxsize (pdf_cache st).
Proof.
  rewrite extract_relevant_clause_unfold. intros He Hok.
  destruct (get_or_create_indexes env pdf_path st) as [r1 st1] eqn:Hg.
  apply (get_or_create_indexes_frame _ _ _ _ _ Hg) in Hok.
  destruct r1; injection He as <- <-; exact Hok.
Qed.

Lemma history_append_insert session_id msg st memory :
  sessions st !! session_id = Some memory ->
  history_append session_id msg st
  = (Return tt,
     set_sessions (insert session_id (mkMemory (history memory ++ [msg]) (messages memory))) st).
Proof. apply history_append_spec. Qed.

Lemma history_append_twice session_id msg1 msg2 st memory :
  sessions st !! session_id = Some memory ->
  (history_append session_id msg1 ;;; history_append session_id msg2) st
  = (Return tt,
     set_sessions (insert session_id
                     (mkMemory (history memory ++ [msg1; msg2]) (messages memory))) st).
Proof.
  intros Hs. unfold bind. rewrite (history_append_insert _ _ _ _ Hs).
  erewrite history_append_insert by (cbn [set_sessions sessions]; apply lookup_insert_eq).
  cbn [history messages]. unfold set_sessions. cbn [uploaded_pdfs fs pdf_cache query_cache sessions].
  now rewrite insert_insert_eq, <- app_assoc.
Qed.

Lemma answer_with_mock_spec user_query session_id context metadata_info st memory :
  sessions st !! session_id = Some memory ->
  answer_with_mock user_query session_id context metadata_info st
  = (Return (mkAnswer (mock_answer user_query context) metadata_info),
     set_sessions
       (insert session_id
          (mkMemory (history memory ++ [user_message user_query;
                                        assistant_message (mock_answer user_query context)])
                    (messages memory))) st).
Proof.
  intros Hs. unfold answer_with_mock.
  change (bind ?m (fun _ => bind ?n (fun _ => ?k)))
    with (bind (bind m (fun _ => n)) (fun _ => k)) at 1.
  unfold bind at 1. now rewrite (history_append_twice _ _ _ _ _ Hs).
Qed.

Lemma insert_after_get_memory session_id (memory : Memory) (m' m : gmap string Memory) :
  (∀ other, other ≠ session_id -> m' !! other = m !! other) ->
  <[session_id := memory]> m' = <[session_id := memory]> m.
Proof.
  intros Hm. apply map_eq. intros other. rewrite !lookup_insert.
  destruct (decide (session_id = other)) as [|Hne]; [reflexivity|].
  apply Hm. congruence.
Qed.

(** One run of the undecorated pipeline, spelled out: the search, then the
    answer by one of the three ways, then the new history of the session. *)
Lemma run_full_pipeline_func_unfold env user_query pdf_path session_id st :
  run_full_pipeline_func env user_query pdf_path session_id st
  = match extract_relevant_clause env pdf_path user_query 10 st with
    | (Raise e, st1) => (Raise e, st1)
    | (Return found, st1) =>
        let outcome := llm_outcome env (pipeline_prompt st1 user_query session_id found) in
        let result := answer_and_messages outcome user_query found.1 in
        (Return (mkAnswer result.1 found.2),
         set_sessions
           (insert session_id
              (mkMemory (session_history st1 session_id ++ result.2)
                        (session_messages st1 session_id))) st1)
    end.
Proof.
  unfold run_full_pipeline_func at 1. unfold bind at 1.
  destruct (extract_relevant_clause env pdf_path user_query 10 st) as [[found|e] st1];
    [|reflexivity].
  unfold bind at 1.
  destruct (get_memory_spec session_id st1) as (memory & m' & Hget & Hm & Hh & Hmsg & Hfr).
  rewrite Hget. set (st2 := set_sessions (fun _ => m') st1).
  assert (sessions st2 !! session_id = Some memory) as Hs2 by exact Hm.
  assert (∀ x, set_sessions (insert session_id x) st2
               = set_sessions (insert session_id x) st1) as Hback.
  { intros x. unfold st2, set_sessions.
    cbn [uploaded_pdfs fs pdf_cache query_cache sessions].
    f_equal. now apply insert_after_get_memory. }
  unfold pipeline_prompt, llm_outcome. rewrite <- Hh, <- Hmsg. cbn zeta.
  destruct (api_key_set env); cbn [andb];
    [|now rewrite (answer_with_mock_spec _ _ _ _ _ _ Hs2), Hback].
  unfold try_except, ask_groq.
  destruct (langchain_groq_importable env); cbn [andb negb];
    [|unfold raise; now rewrite (answer_with_mock_spec _ _ _ _ _ _ Hs2), Hback].
  destruct (ChatGroq_constructs env); cbn [andb negb];
    [|unfold raise; now rewrite (answer_with_mock_spec _ _ _ _ _ _ Hs2), Hback].
  unfold bind at 1. rewrite (history_append_insert _ _ _ _ Hs2).
  set (memory1 := mkMemory (history memory ++ [user_message user_query]) (messages memory)).
  set (st3 := set_sessions (insert session_id memory1) st2).
  assert (sessions st3 !! session_id = Some memory1) as Hs3
    by (unfold st3; cbn [set_sessions sessions]; apply lookup_insert_eq).
  assert (∀ x, set_sessions (insert session_id x) st3
               = set_sessions (insert session_id x) st1) as Hback3.
  { intros x. rewrite <- Hback. unfold st3, set_sessions.
    cbn [uploaded_pdfs fs pdf_cache query_cache sessions].
    now rewrite insert_insert_eq. }
  destruct (llm_invoke env _) as [llm_response_content|]; cbn [answer_and_messages fst snd].
  - unfold bind, ret. rewrite (history_append_insert _ _ _ _ Hs3), Hback3.
    unfold memory1. cbn [history messages]. now rewrite <- app_assoc.
  - unfold raise. rewrite (answer_with_mock_spec _ _ _ _ _ _ Hs3), Hback3.
    unfold memory1. cbn [history messages]. now rewrite <- app_assoc.
Qed.

(** The decorated pipeline on a cache hit: the cached value, one more
    access counted for its key, nothing else. *)
Lemma run_full_pipeline_hit env user_query pdf_path session_id st :
  cache_contains (user_query, pdf_path, session_id) (query_cache st) = true ->
  ∃ e,
    find_entry (user_query, pdf_path, session_id) (entries (query_cache st)) = Some e ∧
    run_full_pipeline env user_query pdf_path session_id st
    = (Return (evalue e),
       set_query_cache
         (mkLFU (maxsize (query_cache st))
                (touch (user_query, pdf_path, session_id) (entries (query_cache st)))) st).
Proof.
  intros Hin. destruct (getitem_present _ _ Hin) as (e & Hf & Hg).
  exists e. split; [assumption|].
  unfold run_full_pipeline, cache_query, bind, gets, on_query_cache. cbn zeta.
  unfold QueryKey in *. now rewrite Hin, Hg.
Qed.

(** The decorated pipeline on a cache miss: the undecorated run, then the
    insertion of its result. *)
Lemma run_full_pipeline_miss env user_query pdf_path session_id st :
  cache_contains (user_query, pdf_path, session_id) (query_cache st) = false ->
  run_full_pipeline env user_query pdf_path session_id st
  = match run_full_pipeline_func env user_query pdf_path session_id st with
    | (Raise e, st1) => (Raise e, st1)
    | (Return result, st1) =>
        match setitem (query_cache_pick env) (user_query, pdf_path, session_id) result
                      (query_cache st1) with
        | (Return _, c) => (Return result, set_query_cache c st1)
        | (Raise e, c) => (Raise e, set_query_cache c st1)
        end
    end.
Proof.
  intros Hin. unfold run_full_pipeline, cache_query, bind, gets, on_query_cache, ret.
  cbn zeta. unfold QueryKey in *. rewrite Hin.
  destruct (run_full_pipeline_func env user_query pdf_path session_id st) as [[result|e] st1];
    [|reflexivity].
  match goal with |- context [@setitem ?K ?V ?I ?p ?k ?v ?c] =>
    now destruct (@setitem K V I p k v c) as [[[]|e] c'] end.
Qed.

(** The undecorated run touches the PDF cache and the sessions only. *)
Lemma run_full_pipeline_func_frame env user_query pdf_path session_id st r st' :
  run_full_pipeline_func env user_query pdf_path session_id st = (r, st') ->
  cache_ok (pdf_cache st) ->
  ∃ c' m',
    st' = mkState (uploaded_pdfs st) (fs st) c' (query_cache st) m'
    ∧ cache_ok c' ∧ maxsize c' = maxsize (pdf_cache st)
    ∧ (∀ other, other ≠ session_id -> m' !! other = sessions st !! other).
Proof.
  rewrite run_full_pipeline_func_unfold. intros Hr Hok.
  destruct (extract_relevant_clause env pdf_path user_query 10 st) as [r1 st1] eqn:He.
  destruct (extract_relevant_clause_frame _ _ _ _ _ _ _ He Hok) as (c' & -> & Hok' & Hmax).
  destruct r1 as [found|e]; injection Hr as <- <-.
  - eexists c', _. split; [reflexivity|]. split; [assumption|]. split; [assumption|].
    intros other Hne. cbn [set_pdf_cache sessions]. now rewrite lookup_insert_ne.
  - eexists c', _. split; [reflexivity|]. auto.
Qed.

(** ** Paths and temporary files *)

Lemma append_cons c a b : String c a +:+ b = String c (a +:+ b).
Proof. reflexivity. Qed.

Lemma append_nil_l a : EmptyString +:+ a = a.
Proof. reflexivity. Qed.

Lemma append_nil_r a : a +:+ EmptyString = a.
Proof. induction a as [|c a IH]; [reflexivity|]. now rewrite append_cons, IH. Qed.

Lemma append_assoc_char cur c r : (cur +:+ String c EmptyString) +:+ r = cur +:+ String c r.
Proof.
  induction cur as [|a cur IH]; [reflexivity|]. now rewrite !append_cons, IH.
Qed.

Lemma has_slash_append a b : has_slash (a +:+ b) = has_slash a || has_slash b.
Proof.
  induction a as [|c a IH]; [reflexivity|].
  rewrite append_cons. cbn [has_slash]. rewrite IH. apply orb_assoc.
Qed.

Lemma basename_from_no_slash cur n :
  has_slash n = false -> basename_from cur n = cur +:+ n.
Proof.
  revert cur. induction n as [|c n IH]; intros cur; cbn [has_slash basename_from].
  - intros _. now rewrite append_nil_r.
  - intros Hs. apply orb_false_iff in Hs as [Hc Hn]. rewrite Hc, IH by assumption.
    apply append_assoc_char.
Qed.

Lemma basename_from_slash cur d n :
  basename_from cur (d +:+ String "/" n) = basename_from EmptyString n.
Proof.
  revert cur. induction d as [|c d IH]; intros cur.
  - reflexivity.
  - rewrite append_cons. cbn [basename_from]. destruct (Ascii.eqb c "/"); apply IH.
Qed.

(** The base name of a file directly inside a directory. *)
Lemma basename_in_dir dir name :
  has_slash name = false -> basename (dir +:+ "/" +:+ name) = name.
Proof.
  intros Hn. unfold basename.
  change ("/" +:+ name) with (String "/" name).
  rewrite basename_from_slash. now rewrite basename_from_no_slash, append_nil_l.
Qed.

Lemma temp_path_basename env name :
  has_slash name = false ->
  temp_path env name = gettempdir env +:+ "/" +:+ basename (temp_path env name).
Proof.
  intros Hn. unfold temp_path.
  rewrite (basename_in_dir (gettempdir env) ("tmp" +:+ name +:+ ".pdf")); [reflexivity|].
  rewrite !has_slash_append, Hn. reflexivity.
Qed.

Lemma first_unused_spec env files names path :
  first_unused env files names = Some path ->
  files !! path = None ∧ ∃ name, name ∈ names ∧ path = temp_path env name.
Proof.
  induction names as [|name names IH]; cbn [first_unused]; [discriminate|].
  destruct (files !! temp_path env name) eqn:Hf.
  - intros Hp. destruct (IH Hp) as (Hnone & name' & Hin & ->).
    split; [assumption|]. exists name'. split; [now right|reflexivity].
  - intros Hp. injection Hp as <-. split; [assumption|].
    exists name. split; [left|reflexivity].
Qed.

(** ** The HTTP handlers *)

(** [upload_pdf], spelled out. *)
Lemma upload_pdf_unfold env file st :
  upload_pdf env file st
  = if negb (str_endswith (filename file) ".pdf")
    then (Raise (HTTPException 400 "❌ Only PDF files allowed"), st)
    else if (max_size <? Z.of_nat (length (file_bytes file)))%Z
    then (Raise (HTTPException 400 "❌ File too large (max 10MB)"), st)
    else match first_unused env (fs st) (candidate_names env) with
         | None =>
             (Raise (HTTPException 500
                "❌ Failed to upload: [Errno 17] No usable temporary file name found"), st)
         | Some pdf_path =>
             (Return (mkUploadResponse (basename pdf_path) (filename file)
                        "✅ PDF uploaded successfully (minimal version)"),
              mkState (<[basename pdf_path := pdf_path]> (uploaded_pdfs st))
                      (<[pdf_path := file_bytes file]> (fs st))
                      (pdf_cache st) (query_cache st) (sessions st))
         end.
Proof.
  unfold upload_pdf, http_errors, try_except.
  destruct (negb (str_endswith (filename file) ".pdf")); [reflexivity|].
  destruct (max_size <? Z.of_nat (length (file_bytes file)))%Z; [reflexivity|].
  unfold bind at 1. unfold NamedTemporaryFile.
  destruct (first_unused env (fs st) (candidate_names env)) as [pdf_path|]; [|reflexivity].
  unfold bind, tmp_write, modify, ret, set_fs, set_uploaded_pdfs.
  cbn [uploaded_pdfs fs pdf_cache query_cache sessions].
  now rewrite insert_insert_eq.
Qed.

(** [query_pdf], spelled out. *)
Lemma query_pdf_unfold pdf_id question session_id st :
  query_pdf pdf_id question session_id st
  = match uploaded_pdfs st !! pdf_id with
    | None =>
        (Raise (HTTPException 404
           ("❌ pdf_id '" +:+ pdf_id +:+ "' not found. Please upload the PDF first!")), st)
    | Some _ =>
        (Return (mkQueryResponse
                   (str_strip (query_mock_template question pdf_id session_id))
                   [mkMockMetadata "Mock response" pdf_id "N/A"]
                   session_id), st)
    end.
Proof.
  unfold query_pdf, bind, gets. now destruct (uploaded_pdfs st !! pdf_id).
Qed.

(** [delete_pdf], spelled out. *)
Lemma delete_pdf_unfold env pdf_id st :
  delete_pdf env pdf_id st
  = match uploaded_pdfs st !! pdf_id with
    | None => (Raise (HTTPException 404 ("❌ pdf_id '" +:+ pdf_id +:+ "' not found")), st)
    | Some pdf_path =>
        let st1 := set_uploaded_pdfs (delete pdf_id) st in
        match fs st !! pdf_path, os_remove_error env pdf_path with
        | Some _, Some msg =>
            (Raise (HTTPException 500 ("❌ Failed to delete: " +:+ msg)), st1)
        | Some _, None =>
            (Return (mkDeleteResponse ("✅ Deleted " +:+ pdf_id) pdf_id),
             set_fs (delete pdf_path) st1)
        | None, _ =>
            (Return (mkDeleteResponse ("✅ Deleted " +:+ pdf_id) pdf_id), st1)
        end
    end.
Proof.
  unfold delete_pdf, bind, gets. destruct (uploaded_pdfs st !! pdf_id) as [pdf_path|];
    [|reflexivity].
  unfold modify, try_except, bind, gets, os_remove, raise, ret, modify.
  cbn [set_uploaded_pdfs fs].
  destruct (fs st !! pdf_path); [|now destruct (os_remove_error env pdf_path)].
  now destruct (os_remove_error env pdf_path).
Qed.

(** ** Invariants of the reachable states *)

(** A call of the decorated pipeline leaves the uploads and the files
    alone, keeps both caches well formed and touches one session only. *)
Lemma run_full_pipeline_frame env user_query pdf_path session_id st r st' :
  run_full_pipeline env user_query pdf_path session_id st = (r, st') ->
  caches_ok st ->
  uploaded_pdfs st' = uploaded_pdfs st ∧ fs st' = fs st ∧ caches_ok st'
  ∧ (∀ other, other ≠ session_id -> sessions st' !! other = sessions st !! other).
Proof.
  intros Hr (Hp10 & Hpok & Hq100 & Hqok).
  destruct (cache_contains (user_query, pdf_path, session_id) (query_cache st)) eqn:Hin.
  - destruct (run_full_pipeline_hit env _ _ _ _ Hin) as (e & Hf & Hhit).
    rewrite Hhit in Hr. injection Hr as <- <-.
    destruct (getitem_present _ _ Hin) as (e' & _ & Hg).
    destruct (getitem_ok _ _ _ _ Hg Hqok) as [Hok2 Hmax2].
    split; [reflexivity|]. split; [reflexivity|]. split; [|reflexivity].
    split; [exact Hp10|]. split; [exact Hpok|]. split; [exact Hq100|exact Hok2].
  - rewrite (run_full_pipeline_miss env _ _ _ _ Hin) in Hr.
    destruct (run_full_pipeline_func env user_query pdf_path session_id st)
      as [r1 st1] eqn:Hfunc.
    destruct (run_full_pipeline_func_frame _ _ _ _ _ _ _ Hfunc Hpok)
      as (c' & m' & -> & Hok' & Hmax' & Hfr).
    destruct r1 as [result|e].
    + cbn [query_cache] in Hr.
      destruct (setitem (query_cache_pick env) (user_query, pdf_path, session_id) result
                        (query_cache st))
        as [r2 c2] eqn:Hset.
      destruct (setitem_keeps_ok _ _ _ _ _ _ Hset Hqok) as [Hok2 Hmax2].
      assert (st' = mkState (uploaded_pdfs st) (fs st) c' c2 m') as ->
        by (destruct r2 as [[]|]; now injection Hr as <- <-).
      split; [reflexivity|]. split; [reflexivity|]. split; [|exact Hfr].
      split; [exact (eq_trans Hmax' Hp10)|]. split; [exact Hok'|].
      split; [exact (eq_trans Hmax2 Hq100)|exact Hok2].
    + injection Hr as <- <-.
      split; [reflexivity|]. split; [reflexivity|]. split; [|exact Hfr].
      split; [exact (eq_trans Hmax' Hp10)|]. split; [exact Hok'|].
      split; [exact Hq100|exact Hqok].
Qed.

Lemma exec_caches_ok env call st : caches_ok st -> caches_ok (exec env call st).
Proof.
  intros Hok. destruct call as [q p s|p q k|p|s|s|file|pdf_id q s|pdf_id]; cbn [exec].
  - destruct (run_full_pipeline env q p s st) as [r st'] eqn:Hr.
    now destruct (run_full_pipeline_frame _ _ _ _ _ _ _ Hr Hok) as (_ & _ & ? & _).
  - destruct (extract_relevant_clause env p q k st) as [r st'] eqn:Hr.
    destruct Hok as (Hp10 & Hpok & Hq).
    destruct (extract_relevant_clause_frame _ _ _ _ _ _ _ Hr Hpok) as (c' & -> & Hok' & Hmax).
    split; [exact (eq_trans Hmax Hp10)|]. split; [exact Hok'|exact Hq].
  - destruct (get_or_create_indexes env p st) as [r st'] eqn:Hr.
    destruct Hok as (Hp10 & Hpok & Hq).
    destruct (get_or_create_indexes_frame _ _ _ _ _ Hr Hpok) as (c' & -> & Hok' & Hmax).
    split; [exact (eq_trans Hmax Hp10)|]. split; [exact Hok'|exact Hq].
  - unfold get_memory. now destruct (sessions st !! s).
  - unfold reset_memory, MemoryManager_reset_memory.
    now destruct (sessions st !! s).
  - rewrite upload_pdf_unfold.
    destruct (negb _); [exact Hok|]. destruct (_ <? _)%Z; [exact Hok|].
    now destruct (first_unused _ _ _).
  - rewrite query_pdf_unfold. now destruct (uploaded_pdfs st !! pdf_id).
  - rewrite delete_pdf_unfold. destruct (uploaded_pdfs st !! pdf_id) as [path|]; [|exact Hok].
    cbn zeta. destruct (fs st !! path); [|exact Hok].
    now destruct (os_remove_error env path).
Qed.

Lemma initial_caches_ok files : caches_ok (initial_state files).
Proof.
  unfold caches_ok, cache_ok, initial_state, currsize. cbn.
  repeat split; try apply NoDup_nil_2; lia.
Qed.

(** In every reachable state both caches have their capacity (10 and 100)
    and hold at most that many entries, under distinct keys. *)
Lemma reachable_caches_ok dir st : reachable dir st -> caches_ok st.
Proof.
  induction 1 as [files|env call st _ _ IH];
    [apply initial_caches_ok|now apply exec_caches_ok].
Qed.

Lemma exec_uploads_ok dir env call st :
  env_ok dir env -> caches_ok st -> uploads_ok dir st -> uploads_ok dir (exec env call st).
Proof.
  intros [Hdir Hnames] Hcok Hok.
  destruct call as [q p s|p q k|p|s|s|file|pdf_id q s|pdf_id]; cbn [exec].
  - destruct (run_full_pipeline env q p s st) as [r st'] eqn:Hr.
    destruct (run_full_pipeline_frame _ _ _ _ _ _ _ Hr Hcok) as (Hu & Hf & _ & _).
    unfold uploads_ok. cbn [snd]. rewrite Hu, Hf. exact Hok.
  - destruct (extract_relevant_clause env p q k st) as [r st'] eqn:Hr.
    destruct Hcok as (_ & Hpok & _).
    now destruct (extract_relevant_clause_frame _ _ _ _ _ _ _ Hr Hpok) as (c' & -> & _).
  - destruct (get_or_create_indexes env p st) as [r st'] eqn:Hr.
    destruct Hcok as (_ & Hpok & _).
    now destruct (get_or_create_indexes_frame _ _ _ _ _ Hr Hpok) as (c' & -> & _).
  - unfold get_memory. now destruct (sessions st !! s).
  - unfold reset_memory, MemoryManager_reset_memory.
    now destruct (sessions st !! s).
  - rewrite upload_pdf_unfold.
    destruct (negb _); [exact Hok|]. destruct (_ <? _)%Z; [exact Hok|].
    destruct (first_unused env (fs st) (candidate_names env)) as [path|] eqn:Hfirst;
      [|exact Hok].
    apply first_unused_spec in Hfirst as (Hfresh & name & Hin & ->).
    rewrite Forall_forall in Hnames. specialize (Hnames name Hin).
    intros id0 p0. cbn [snd uploaded_pdfs fs]. rewrite lookup_insert.
    destruct (decide (basename (temp_path env name) = id0)) as [<-|Hne].
    + intros Hp0. injection Hp0 as <-. split.
      * rewrite <- Hdir. now apply temp_path_basename.
      * rewrite lookup_insert_eq. eauto.
    + intros Hp0. destruct (Hok _ _ Hp0) as [Hpath Hex]. split; [assumption|].
      rewrite lookup_insert. now destruct (decide (temp_path env name = p0)).
  - rewrite query_pdf_unfold. now destruct (uploaded_pdfs st !! pdf_id).
  - rewrite delete_pdf_unfold.
    destruct (uploaded_pdfs st !! pdf_id) as [path|] eqn:Hid; [|exact Hok].
    destruct (Hok _ _ Hid) as [Hpath _].
    assert (uploads_ok dir (set_uploaded_pdfs (delete pdf_id) st)) as Hok1.
    { intros id0 p0. cbn [set_uploaded_pdfs uploaded_pdfs fs]. rewrite lookup_delete.
      destruct (decide (pdf_id = id0)); [discriminate|apply Hok]. }
    cbn zeta. destruct (fs st !! path); [|exact Hok1].
    destruct (os_remove_error env path); [exact Hok1|].
    intros id0 p0. cbn [snd set_fs set_uploaded_pdfs uploaded_pdfs fs].
    rewrite lookup_delete. destruct (decide (pdf_id = id0)) as [|Hne]; [discriminate|].
    intros Hp0. destruct (Hok _ _ Hp0) as [Hpath0 Hex0]. split; [assumption|].
    rewrite lookup_delete_ne; [assumption|].
    subst path p0. intros Heq. apply String.app_inj in Heq.
    apply String.app_inj in Heq. congruence.
Qed.

(** In every reachable state each upload identifier names a file that
    exists in the temporary directory. *)
Lemma reachable_uploads_ok dir st : reachable dir st -> uploads_ok dir st.
Proof.
  induction 1 as [files|env call st Henv Hreach IH].
  - intros pdf_id pdf_path. cbn. now rewrite lookup_empty.
  - apply exec_uploads_ok; [assumption| |assumption].
    now apply reachable_caches_ok with dir.
Qed.

(** ** Session reset *)

(** C6.  Resetting a session returns and leaves that session with an
    empty history and an empty message list: a session that had a memory
    gets a new empty one, a session that had none still has none, and
    [get_memory] then yields an empty memory in both cases.  The memory of
    every other session, the uploads, the files and both caches are
    unchanged. *)
Theorem reset_memory_clears_session session_id st :
  ∃ st',
    reset_memory session_id st = (Return tt, st')
    ∧ sessions st' !! session_id = (fun _ => empty_memory) <$> sessions st !! session_id
    ∧ session_history st' session_id = []
    ∧ session_messages st' session_id = []
    ∧ (∃ memory, (get_memory session_id st').1 = Return memory
                 ∧ history memory = [] ∧ messages memory = [])
    ∧ (∀ other, other ≠ session_id -> sessions st' !! other = sessions st !! other)
    ∧ uploaded_pdfs st' = uploaded_pdfs st ∧ fs st' = fs st
    ∧ pdf_cache st' = pdf_cache st ∧ query_cache st' = query_cache st.
Proof.
  unfold reset_memory, MemoryManager_reset_memory, session_history, session_messages,
    get_memory.
  destruct (sessions st !! session_id) as [memory|] eqn:Hs.
  - eexists. split; [reflexivity|]. cbn [set_sessions sessions uploaded_pdfs fs
      pdf_cache query_cache]. rewrite lookup_insert_eq. cbn [fst].
    repeat split; eauto.
    intros other Hne. now apply lookup_insert_ne.
  - exists st. split; [reflexivity|]. rewrite Hs. cbn [fst]. repeat split; eauto.
Qed.

(** ** Unknown identifiers *)

(** C7.  For an identifier that is not in the uploaded-PDF map, the query
    handler and the delete handler both raise an HTTP 404 error and leave
    the map, and the rest of the state, unchanged. *)
Theorem unknown_pdf_id_is_404 env st pdf_id question session_id :
  uploaded_pdfs st !! pdf_id = None ->
  (∃ detail, query_pdf pdf_id question session_id st
             = (Raise (HTTPException 404 detail), st))
  ∧ (∃ detail, delete_pdf env pdf_id st = (Raise (HTTPException 404 detail), st)).
Proof.
  intros Hid. rewrite query_pdf_unfold, delete_pdf_unfold, Hid. eauto.
Qed.

Lemma unknown_pdf_id_is_404_witness :
  uploaded_pdfs sample_uploaded !! "nothing.pdf" = None
  ∧ (∃ detail, query_pdf "nothing.pdf" "what?" "s1" sample_uploaded
               = (Raise (HTTPException 404 detail), sample_uploaded))
  ∧ (∃ detail, delete_pdf sample_env "nothing.pdf" sample_uploaded
               = (Raise (HTTPException 404 detail), sample_uploaded)).
Proof.
  split; [vm_compute; reflexivity|].
  apply (unknown_pdf_id_is_404 sample_env sample_uploaded "nothing.pdf" "what?" "s1").
  vm_compute. reflexivity.
Defined.

(** ** Deletion *)

(** C10.  For an identifier in the uploaded-PDF map whose file exists, if
    removing the file raises, the delete handler raises an HTTP 500 error
    and the identifier is nevertheless gone from the map: the map is the
    old one without the identifier, and the file is still there. *)
Theorem delete_pdf_not_rolled_back env st pdf_id pdf_path msg :
  uploaded_pdfs st !! pdf_id = Some pdf_path ->
  is_Some (fs st !! pdf_path) ->
  os_remove_error env pdf_path = Some msg ->
  ∃ detail st',
    delete_pdf env pdf_id st = (Raise (HTTPException 500 detail), st')
    ∧ uploaded_pdfs st' !! pdf_id = None
    ∧ uploaded_pdfs st' = delete pdf_id (uploaded_pdfs st)
    ∧ fs st' = fs st.
Proof.
  intros Hid [bytes Hfile] Hrm. rewrite delete_pdf_unfold, Hid. cbn zeta.
  rewrite Hfile, Hrm. eexists _, _. split; [reflexivity|].
  cbn [set_uploaded_pdfs uploaded_pdfs fs]. rewrite lookup_delete_eq. auto.
Qed.

Lemma delete_pdf_not_rolled_back_witness :
  ∃ detail st',
    delete_pdf sample_env_remove_fails "tmpabc.pdf" sample_uploaded
    = (Raise (HTTPException 500 detail), st')
    ∧ uploaded_pdfs st' !! "tmpabc.pdf" = None
    ∧ uploaded_pdfs st' = delete "tmpabc.pdf" (uploaded_pdfs sample_uploaded)
    ∧ fs st' = fs sample_uploaded.
Proof.
  apply (delete_pdf_not_rolled_back sample_env_remove_fails sample_uploaded
           "tmpabc.pdf" "/tmp/tmpabc.pdf" "[Errno 13] Permission denied").
  - vm_compute. reflexivity.
  - exists ["%"; "P"; "D"; "F"]%byte. vm_compute. reflexivity.
  - reflexivity.
Defined.

(** ** Upload *)

(** A failure to create the temporary file is answered by HTTP 500, the
    state unchanged. *)
Lemma upload_pdf_no_temporary_file env file st :
  str_endswith (filename file) ".pdf" = true ->
  (Z.of_nat (length (file_bytes file)) <= max_size)%Z ->
  first_unused env (fs st) (candidate_names env) = None ->
  ∃ detail, upload_pdf env file st = (Raise (HTTPException 500 detail), st).
Proof.
  intros Hname Hsize Hnone. rewrite upload_pdf_unfold, Hname, Hnone. cbn [negb].
  destruct (Z.ltb_spec max_size (Z.of_nat (length (file_bytes file)))); [lia|eauto].
Qed.

(** C2.  The upload handler raises an HTTP 400 error, leaving the
    uploaded-PDF map and the rest of the state unchanged, when the file
    name does not end in [.pdf], and also when the payload is longer than
    10 * 1024 * 1024 bytes.  Otherwise, a temporary file having been
    created, the payload is stored in it and the handler returns an
    identifier, the base name of that file, which the map now sends to the
    file's path; the path was not in use, and in a reachable state the
    identifier was not in the map. *)
Theorem upload_pdf_validates env file st :
  (str_endswith (filename file) ".pdf" = false ->
   ∃ detail, upload_pdf env file st = (Raise (HTTPException 400 detail), st))
  ∧ ((10 * 1024 * 1024 < Z.of_nat (length (file_bytes file)))%Z ->
     ∃ detail, upload_pdf env file st = (Raise (HTTPException 400 detail), st))
  ∧ (str_endswith (filename file) ".pdf" = true ->
     (Z.of_nat (length (file_bytes file)) <= 10 * 1024 * 1024)%Z ->
     ∀ pdf_path,
       first_unused env (fs st) (candidate_names env) = Some pdf_path ->
       ∃ response st',
         upload_pdf env file st = (Return response, st')
         ∧ up_pdf_id response = basename pdf_path
         ∧ uploaded_pdfs st' = <[up_pdf_id response := pdf_path]> (uploaded_pdfs st)
         ∧ fs st !! pdf_path = None
         ∧ fs st' !! pdf_path = Some (file_bytes file)
         ∧ (∀ dir, env_ok dir env -> reachable dir st ->
                   uploaded_pdfs st !! up_pdf_id response = None)).
Proof.
  rewrite upload_pdf_unfold. split; [|split].
  - intros ->. cbn [negb]. eauto.
  - intros Hbig. destruct (negb _); [eauto|].
    destruct (Z.ltb_spec max_size (Z.of_nat (length (file_bytes file)))) as [|Hle];
      [eauto|]. unfold max_size in Hle. lia.
  - intros -> Hsize pdf_path Hfirst. cbn [negb].
    destruct (Z.ltb_spec max_size (Z.of_nat (length (file_bytes file)))) as [Hbig|_];
      [unfold max_size in Hbig; lia|].
    rewrite Hfirst. eexists _, _. split; [reflexivity|].
    cbn [up_pdf_id uploaded_pdfs fs].
    apply first_unused_spec in Hfirst as (Hfresh & name & Hin & ->).
    split; [reflexivity|]. split; [reflexivity|]. split; [assumption|].
    split; [apply lookup_insert_eq|].
    intros dir [Hdir Hnames] Hreach.
    rewrite Forall_forall in Hnames. specialize (Hnames name Hin).
    destruct (uploaded_pdfs st !! basename (temp_path env name)) as [p0|] eqn:Hid;
      [|reflexivity].
    destruct (reachable_uploads_ok _ _ Hreach _ _ Hid) as [Hp0 [bytes Hex]].
    rewrite <- Hdir, <- temp_path_basename in Hp0 by assumption. subst p0. congruence.
Qed.

Lemma upload_pdf_validates_witness :
  (∃ detail, upload_pdf sample_env (mkUploadFile "notes.txt" []) (initial_state ∅)
             = (Raise (HTTPException 400 detail), initial_state ∅))
  ∧ (∃ detail,
       upload_pdf sample_env
         (mkUploadFile "big.pdf" (repeat "000"%byte (Z.to_nat (10 * 1024 * 1024 + 1))))
         (initial_state ∅)
       = (Raise (HTTPException 400 detail), initial_state ∅))
  ∧ (∃ response st',
       upload_pdf sample_env sample_file (initial_state ∅) = (Return response, st')
       ∧ up_pdf_id response = basename "/tmp/tmpabc.pdf"
       ∧ uploaded_pdfs st' = <[up_pdf_id response := "/tmp/tmpabc.pdf"]> ∅
       ∧ fs (initial_state ∅) !! "/tmp/tmpabc.pdf" = None
       ∧ fs st' !! "/tmp/tmpabc.pdf" = Some (file_bytes sample_file)
       ∧ (∀ dir, env_ok dir sample_env -> reachable dir (initial_state ∅) ->
                 uploaded_pdfs (initial_state ∅) !! up_pdf_id response = None)).
Proof.
  split; [|split].
  - apply (proj1 (upload_pdf_validates sample_env (mkUploadFile "notes.txt" [])
                    (initial_state ∅))).
    reflexivity.
  - apply (proj1 (proj2 (upload_pdf_validates sample_env
                    (mkUploadFile "big.pdf"
                       (repeat "000"%byte (Z.to_nat (10 * 1024 * 1024 + 1))))
                    (initial_state ∅)))).
    cbn [file_bytes]. rewrite repeat_length. lia.
  - apply (proj2 (proj2 (upload_pdf_validates sample_env sample_file (initial_state ∅)))).
    + reflexivity.
    + cbn. lia.
    + reflexivity.
Defined.

(** ** The decorated pipeline on a cache miss *)

(** With [pypdf] installed and the PDF not yet indexed, the search runs
    over the texts extracted from the file. *)
Lemma extract_relevant_clause_fresh env pdf_path user_query k st :
  caches_ok st -> pypdf_importable env = true ->
  cache_contains pdf_path (pdf_cache st) = false ->
  ∃ c', extract_relevant_clause env pdf_path user_query k st
        = (Return (relevant_clause pdf_path user_query k (extracted_texts env st pdf_path)),
           set_pdf_cache c' st).
Proof.
  intros (Hp10 & Hpok & _) Hi Hin. rewrite extract_relevant_clause_unfold.
  rewrite (get_or_create_indexes_miss _ _ _ _ Hin (load_pdf_chunks_importable _ _ _ Hi)).
  match goal with |- context [@setitem ?K ?V ?I ?p ?k ?v ?c] =>
    destruct (@setitem_ok K V I p k v c Hpok ltac:(lia)) as (c1 & -> & _) end.
  eauto.
Qed.

(** With [pypdf] installed or the PDF already indexed, the search returns. *)
Lemma extract_relevant_clause_returns env pdf_path user_query k st :
  caches_ok st ->
  pypdf_importable env = true ∨ cache_contains pdf_path (pdf_cache st) = true ->
  ∃ found st1, extract_relevant_clause env pdf_path user_query k st = (Return found, st1).
Proof.
  intros (Hp10 & Hpok & _) Hcan. rewrite extract_relevant_clause_unfold.
  destruct (get_or_create_indexes_returns env pdf_path st Hcan Hpok ltac:(lia))
    as (indexes & st1 & ->).
  eauto.
Qed.

(** A miss in the answer cache, the search having returned: the answer
    comes by one of the three ways, the session's history grows by the
    messages of that way, and the answer is put in the cache. *)
Lemma run_full_pipeline_miss_spec env user_query pdf_path session_id st found st1 :
  caches_ok st ->
  cache_contains (user_query, pdf_path, session_id) (query_cache st) = false ->
  extract_relevant_clause env pdf_path user_query 10 st = (Return found, st1) ->
  let outcome := llm_outcome env (pipeline_prompt st user_query session_id found) in
  let result := answer_and_messages outcome user_query found.1 in
  ∃ c2,
    setitem (query_cache_pick env) (user_query, pdf_path, session_id)
            (mkAnswer result.1 found.2) (query_cache st)
    = (Return tt, c2)
    ∧ run_full_pipeline env user_query pdf_path session_id st
      = (Return (mkAnswer result.1 found.2),
         mkState (uploaded_pdfs st) (fs st) (pdf_cache st1) c2
                 (<[session_id := mkMemory (session_history st session_id ++ result.2)
                                           (session_messages st session_id)]> (sessions st))).
Proof.
  intros (Hp10 & Hpok & Hq100 & Hqok) Hin He outcome result.
  destruct (extract_relevant_clause_frame _ _ _ _ _ _ _ He Hpok) as (c' & -> & _ & _).
  destruct (setitem_ok (query_cache_pick env) (user_query, pdf_path, session_id)
              (mkAnswer result.1 found.2)
              (query_cache st) Hqok ltac:(unfold QueryKey in *; lia)) as (c2 & Hset & _).
  exists c2. split; [exact Hset|].
  rewrite (run_full_pipeline_miss env _ _ _ _ Hin), run_full_pipeline_func_unfold, He.
  cbn zeta. cbn [query_cache set_sessions set_pdf_cache].
  change (pipeline_prompt (set_pdf_cache c' st)) with (pipeline_prompt st).
  fold outcome. fold result. unfold QueryKey in *. rewrite Hset. reflexivity.
Qed.

(** A miss in the answer cache, the search having raised: the call raises
    the same exception and no answer is cached. *)
Lemma run_full_pipeline_miss_raises env user_query pdf_path session_id st e st1 :
  cache_contains (user_query, pdf_path, session_id) (query_cache st) = false ->
  extract_relevant_clause env pdf_path user_query 10 st = (Raise e, st1) ->
  run_full_pipeline env user_query pdf_path session_id st = (Raise e, st1).
Proof.
  intros Hin He.
  now rewrite (run_full_pipeline_miss env _ _ _ _ Hin), run_full_pipeline_func_unfold, He.
Qed.

(** ** The query handler *)

(** C1, as amended.  For an identifier in the uploaded-PDF map the query
    handler returns, unchanged state, a canned answer made of the question,
    the identifier and the session, with one mock metadata entry.  The
    response is the same whatever the files, the caches, the memories and
    the path stored for the identifier are: no text is searched and no
    model is called, with or without an API key or a client library. *)
Theorem query_pdf_returns_mock st pdf_id question session_id pdf_path :
  uploaded_pdfs st !! pdf_id = Some pdf_path ->
  query_pdf pdf_id question session_id st
  = (Return (mkQueryResponse
               (str_strip (query_mock_template question pdf_id session_id))
               [mkMockMetadata "Mock response" pdf_id "N/A"]
               session_id), st)
  ∧ (∀ st2, is_Some (uploaded_pdfs st2 !! pdf_id) ->
            (query_pdf pdf_id question session_id st2).1
            = (query_pdf pdf_id question session_id st).1).
Proof.
  intros Hid. rewrite query_pdf_unfold, Hid. split; [reflexivity|].
  intros st2 [p2 Hid2]. now rewrite query_pdf_unfold, Hid2.
Qed.

Lemma query_pdf_returns_mock_witness :
  query_pdf "tmpabc.pdf" "hello there" "s1" sample_uploaded
  = (Return (mkQueryResponse
               (str_strip (query_mock_template "hello there" "tmpabc.pdf" "s1"))
               [mkMockMetadata "Mock response" "tmpabc.pdf" "N/A"]
               "s1"), sample_uploaded)
  ∧ (∀ st2, is_Some (uploaded_pdfs st2 !! "tmpabc.pdf") ->
            (query_pdf "tmpabc.pdf" "hello there" "s1" st2).1
            = (query_pdf "tmpabc.pdf" "hello there" "s1" sample_uploaded).1).
Proof.
  apply (query_pdf_returns_mock sample_uploaded "tmpabc.pdf" "hello there" "s1"
           "/tmp/tmpabc.pdf").
  vm_compute. reflexivity.
Defined.

(** C1, as stated, fails: after one upload, the pipeline finds the page
    that holds the word asked for and answers with its own fallback text,
    while the handler answers with its fixed text. *)
Lemma query_pdf_runs_pipeline_fails : ¬ query_pdf_runs_pipeline.
Proof.
  intros H.
  destruct (H sample_env sample_uploaded "tmpabc.pdf" "hello there" "s1" "/tmp/tmpabc.pdf")
    as (found & st' & response & st'' & Hrun & Hquery & Hsame).
  { vm_compute. reflexivity. }
  apply (f_equal (fun r => returned (mkAnswer EmptyString []) r.1)) in Hrun.
  apply (f_equal (fun r => returned (mkQueryResponse EmptyString [] EmptyString) r.1))
    in Hquery.
  cbn [fst returned] in Hrun, Hquery. subst found response.
  vm_compute in Hsame. discriminate Hsame.
Qed.

(** ** Failures of the reader and of the hosted model *)

Lemma answer_is_mock env prompt user_query context :
  langchain_groq_importable env = false ∨ llm_invoke env prompt = None ->
  (answer_and_messages (llm_outcome env prompt) user_query context).1
  = mock_answer user_query context.
Proof.
  unfold llm_outcome. intros [Hlib|Hcall].
  - rewrite Hlib, andb_false_r. reflexivity.
  - rewrite Hcall. now destruct (_ && _ && _).
Qed.

(** With [pypdf] installed or the PDF already indexed, a call of the
    decorated pipeline returns, whatever the hosted model does. *)
Lemma run_full_pipeline_returns env user_query pdf_path session_id st :
  caches_ok st ->
  pypdf_importable env = true ∨ cache_contains pdf_path (pdf_cache st) = true ->
  ∃ result st', run_full_pipeline env user_query pdf_path session_id st = (Return result, st').
Proof.
  intros Hok Hcan.
  destruct (cache_contains (user_query, pdf_path, session_id) (query_cache st)) eqn:Hin.
  - destruct (run_full_pipeline_hit env _ _ _ _ Hin) as (e & _ & ->). eauto.
  - destruct (extract_relevant_clause_returns env pdf_path user_query 10 st Hok Hcan)
      as (found & st1 & He).
    destruct (run_full_pipeline_miss_spec _ _ _ _ _ _ _ Hok Hin He) as (c2 & _ & ->).
    eauto.
Qed.

(** C8, as amended.  Provided [pypdf] can be imported: [load_pdf_chunks]
    returns the empty list, and raises nothing, when the file does not
    exist and when the reader raises; every call of the pipeline returns;
    and a call that is not answered from the cache answers with the mock
    answer when the client library of the hosted model is missing or the
    call to the model raises. *)
Theorem load_pdf_chunks_and_pipeline_fall_back env st :
  pypdf_importable env = true ->
  (∀ pdf_path,
     (fs st !! pdf_path = None ∨
      ∃ bytes, fs st !! pdf_path = Some bytes ∧ PdfReader_texts env pdf_path bytes = None) ->
     load_pdf_chunks env pdf_path st = (Return [], st))
  ∧ (∀ user_query pdf_path session_id,
       caches_ok st ->
       ∃ result st',
         run_full_pipeline env user_query pdf_path session_id st = (Return result, st'))
  ∧ (∀ user_query pdf_path session_id,
       caches_ok st ->
       cache_contains (user_query, pdf_path, session_id) (query_cache st) = false ->
       ∃ found st1 result st',
         extract_relevant_clause env pdf_path user_query 10 st = (Return found, st1)
         ∧ run_full_pipeline env user_query pdf_path session_id st = (Return result, st')
         ∧ metadata result = found.2
         ∧ (langchain_groq_importable env = false
            ∨ llm_invoke env (pipeline_prompt st user_query session_id found) = None ->
            answer result = mock_answer user_query found.1)).
Proof.
  intros Hi. split; [|split].
  - intros pdf_path Hbad. rewrite (load_pdf_chunks_importable _ _ _ Hi).
    unfold extracted_texts. destruct Hbad as [->|(bytes & -> & ->)]; reflexivity.
  - intros user_query pdf_path session_id Hok.
    apply run_full_pipeline_returns; auto.
  - intros user_query pdf_path session_id Hok Hin.
    destruct (extract_relevant_clause_returns env pdf_path user_query 10 st Hok (or_introl Hi))
      as (found & st1 & He).
    destruct (run_full_pipeline_miss_spec _ _ _ _ _ _ _ Hok Hin He) as (c2 & _ & Hrun).
    eexists found, st1, _, _. split; [exact He|]. split; [exact Hrun|].
    split; [reflexivity|]. intros Hfail. cbn [answer]. now apply answer_is_mock.
Qed.

Lemma load_pdf_chunks_and_pipeline_fall_back_witness :
  load_pdf_chunks sample_env_llm_raises "/tmp/missing.pdf" sample_uploaded
  = (Return [], sample_uploaded)
  ∧ (∃ result st',
       run_full_pipeline sample_env_llm_raises "hello there" "/tmp/tmpabc.pdf" "s1"
         sample_uploaded = (Return result, st'))
  ∧ (∃ found st1 result st',
       extract_relevant_clause sample_env_llm_raises "/tmp/tmpabc.pdf" "hello there" 10
         sample_uploaded = (Return found, st1)
       ∧ run_full_pipeline sample_env_llm_raises "hello there" "/tmp/tmpabc.pdf" "s1"
           sample_uploaded = (Return result, st')
       ∧ metadata result = found.2
       ∧ (langchain_groq_importable sample_env_llm_raises = false
          ∨ llm_invoke sample_env_llm_raises
              (pipeline_prompt sample_uploaded "hello there" "s1" found) = None ->
          answer result = mock_answer "hello there" found.1)).
Proof.
  destruct (load_pdf_chunks_and_pipeline_fall_back sample_env_llm_raises sample_uploaded
              eq_refl) as (Hload & Hreturns & Hmock).
  assert (caches_ok sample_uploaded) as Hok.
  { unfold caches_ok, cache_ok. vm_compute.
    repeat split; try constructor; discriminate. }
  split; [|split].
  - apply Hload. left. vm_compute. reflexivity.
  - apply Hreturns, Hok.
  - apply Hmock; [exact Hok|]. vm_compute. reflexivity.
Defined.

(** C8, as stated, fails: without [pypdf] the import inside
    [load_pdf_chunks] raises before the file is looked at. *)
Lemma load_pdf_chunks_never_raises_fails : ¬ load_pdf_chunks_never_raises.
Proof.
  intros H.
  specialize (H sample_env_no_pypdf "/tmp/missing.pdf" (initial_state ∅)).
  rewrite load_pdf_chunks_import_error in H by reflexivity.
  assert (fs (initial_state ∅) !! "/tmp/missing.pdf" = None) as Hmissing
    by (vm_compute; reflexivity).
  specialize (H (or_introl Hmissing)). discriminate H.
Qed.

(** ** Cached answers *)

Lemma answer_and_messages_shape outcome user_query context :
  let result := answer_and_messages outcome user_query context in
  result.2 = [user_message user_query; assistant_message result.1]
  ∨ (outcome = LLMRaised
     ∧ result.2 = [user_message user_query; user_message user_query;
                   assistant_message result.1]).
Proof. destruct outcome; cbn; auto. Qed.

Lemma session_history_stored u f c q (m : gmap string Memory) session_id h msgs :
  session_history (mkState u f c q (<[session_id := mkMemory h msgs]> m)) session_id = h.
Proof. unfold session_history. cbn [sessions]. now rewrite lookup_insert_eq. Qed.

(** C9.  When the key (query, path, session) is in the answer cache, a
    call of [run_full_pipeline] returns the cached answer and leaves every
    session's memory, hence the history, unchanged, as well as the PDF
    cache, the uploads and the files; no message is appended.  A call that
    misses the cache and returns has appended the user's message and the
    assistant's message with the answer; the user's message is there
    twice when the call to the hosted model was made and raised. *)
Theorem cached_answer_leaves_history env user_query pdf_path session_id st :
  (cache_contains (user_query, pdf_path, session_id) (query_cache st) = true ->
   ∃ e st',
     find_entry (user_query, pdf_path, session_id) (entries (query_cache st)) = Some e
     ∧ run_full_pipeline env user_query pdf_path session_id st = (Return (evalue e), st')
     ∧ sessions st' = sessions st
     ∧ session_history st' session_id = session_history st session_id
     ∧ pdf_cache st' = pdf_cache st
     ∧ uploaded_pdfs st' = uploaded_pdfs st ∧ fs st' = fs st)
  ∧ (cache_contains (user_query, pdf_path, session_id) (query_cache st) = false ->
     caches_ok st ->
     ∀ result st',
       run_full_pipeline env user_query pdf_path session_id st = (Return result, st') ->
       session_history st' session_id
       = session_history st session_id
         ++ [user_message user_query; assistant_message (answer result)]
       ∨ session_history st' session_id
         = session_history st session_id
           ++ [user_message user_query; user_message user_query;
               assistant_message (answer result)]).
Proof.
  split.
  - intros Hin. destruct (run_full_pipeline_hit env _ _ _ _ Hin) as (e & Hf & Hrun).
    eexists e, _. split; [exact Hf|]. split; [exact Hrun|]. now destruct st.
  - intros Hin Hok result st' Hrun.
    destruct (extract_relevant_clause env pdf_path user_query 10 st) as [[found|e] st1] eqn:He.
    + destruct (run_full_pipeline_miss_spec _ _ _ _ _ _ _ Hok Hin He) as (c2 & _ & Hspec).
      rewrite Hspec in Hrun. injection Hrun as <- <-.
      rewrite !session_history_stored. cbn [answer].
      destruct (answer_and_messages_shape
                  (llm_outcome env (pipeline_prompt st user_query session_id found))
                  user_query found.1) as [->|[_ ->]]; auto.
    + rewrite (run_full_pipeline_miss_raises _ _ _ _ _ _ _ Hin He) in Hrun. discriminate.
Qed.

Lemma cached_answer_leaves_history_witness :
  (∃ e st',
     find_entry ("hello there", "/tmp/tmpabc.pdf", "s1") (entries (query_cache sample_asked))
     = Some e
     ∧ run_full_pipeline sample_env "hello there" "/tmp/tmpabc.pdf" "s1" sample_asked
       = (Return (evalue e), st')
     ∧ sessions st' = sessions sample_asked
     ∧ session_history st' "s1" = session_history sample_asked "s1"
     ∧ pdf_cache st' = pdf_cache sample_asked
     ∧ uploaded_pdfs st' = uploaded_pdfs sample_asked ∧ fs st' = fs sample_asked)
  ∧ (session_history sample_asked "s1"
     = session_history sample_uploaded "s1"
       ++ [user_message "hello there";
           assistant_message
             (answer (returned (mkAnswer EmptyString [])
                        (run_full_pipeline sample_env "hello there" "/tmp/tmpabc.pdf" "s1"
                           sample_uploaded).1))]
     ∨ session_history sample_asked "s1"
       = session_history sample_uploaded "s1"
         ++ [user_message "hello there"; user_message "hello there";
             assistant_message
               (answer (returned (mkAnswer EmptyString [])
                          (run_full_pipeline sample_env "hello there" "/tmp/tmpabc.pdf" "s1"
                             sample_uploaded).1))]).
Proof.
  split.
  - apply (proj1 (cached_answer_leaves_history sample_env "hello there" "/tmp/tmpabc.pdf"
                    "s1" sample_asked)).
    vm_compute. reflexivity.
  - apply (proj2 (cached_answer_leaves_history sample_env "hello there" "/tmp/tmpabc.pdf"
                    "s1" sample_uploaded)).
    + vm_compute. reflexivity.
    + apply (reachable_caches_ok "/tmp"). apply reachable_step; [|apply reachable_init].
      split; [reflexivity|]. repeat constructor.
    + vm_compute. reflexivity.
Defined.

(** ** The two caches *)

Lemma run_calls_reachable dir env calls st :
  env_ok dir env -> reachable dir st -> reachable dir (run_calls env calls st).
Proof.
  intros Henv. revert st. induction calls as [|call calls IH]; intros st Hst; [exact Hst|].
  apply IH. now apply reachable_step.
Qed.

(** C5.  The PDF cache, keyed by PDF path, has capacity 10 and the answer
    cache, keyed by (query, PDF path, session id), has capacity 100; in
    every reachable state, hence after every insertion, neither holds more
    entries than its capacity.

    What a cache counts for an entry are the accesses the program made to
    it.  A call that finds its key in the cache counts one more access for
    that entry and changes nothing else: the entries keep their order,
    keys and values, and the other entries their counts.  A call that does
    not find its key adds the new entry with one access (counter [-1]),
    after the entries that were there, kept as they are while there was
    room.  A question answered from the answer cache does not reach the
    PDF cache; any other question that returns reaches it exactly as one
    call of [get_or_create_indexes] on its path does.

    Into a full cache, the new entry comes in place of one entry that no
    other entry has been accessed less often than.  Which of several such
    entries leaves is not fixed; in every case an entry that has been
    accessed more often than some other entry stays. *)
Theorem caches_are_bounded_lfu dir st :
  reachable dir st ->
  (maxsize (pdf_cache st) = 10 ∧ currsize (pdf_cache st) <= 10
   ∧ maxsize (query_cache st) = 100 ∧ currsize (query_cache st) <= 100)%Z
  ∧ (∀ env pdf_path,
       cache_contains pdf_path (pdf_cache st) = true ->
       ∃ indexes st',
         get_or_create_indexes env pdf_path st = (Return indexes, st')
         ∧ one_more_access pdf_path (entries (pdf_cache st)) (entries (pdf_cache st')))
  ∧ (∀ env pdf_path,
       pypdf_importable env = true ->
       cache_contains pdf_path (pdf_cache st) = false ->
       ∃ indexes st',
         get_or_create_indexes env pdf_path st = (Return indexes, st')
         ∧ ((currsize (pdf_cache st) < 10)%Z ->
            entries (pdf_cache st')
            = entries (pdf_cache st) ++ [mkEntry pdf_path indexes (-1)])
         ∧ (currsize (pdf_cache st) = 10%Z ->
            ∃ victim,
              least_accessed victim (entries (pdf_cache st))
              ∧ entries (pdf_cache st')
                = del_key (ekey victim) (entries (pdf_cache st))
                  ++ [mkEntry pdf_path indexes (-1)]
              ∧ currsize (pdf_cache st') = 10%Z
              ∧ ∀ e e', e ∈ entries (pdf_cache st) -> e' ∈ entries (pdf_cache st) ->
                        (accesses e' < accesses e)%Z -> e ∈ entries (pdf_cache st')))
  ∧ (∀ env user_query pdf_path session_id,
       cache_contains (user_query, pdf_path, session_id) (query_cache st) = true ->
       ∃ result st',
         run_full_pipeline env user_query pdf_path session_id st = (Return result, st')
         ∧ one_more_access (user_query, pdf_path, session_id)
                           (entries (query_cache st)) (entries (query_cache st'))
         ∧ pdf_cache st' = pdf_cache st)
  ∧ (∀ env user_query pdf_path session_id,
       pypdf_importable env = true ->
       cache_contains (user_query, pdf_path, session_id) (query_cache st) = false ->
       ∃ result st',
         run_full_pipeline env user_query pdf_path session_id st = (Return result, st')
         ∧ pdf_cache st' = pdf_cache (get_or_create_indexes env pdf_path st).2
         ∧ ((currsize (query_cache st) < 100)%Z ->
            entries (query_cache st')
            = entries (query_cache st)
              ++ [mkEntry (user_query, pdf_path, session_id) result (-1)])
         ∧ (currsize (query_cache st) = 100%Z ->
            ∃ victim,
              least_accessed victim (entries (query_cache st))
              ∧ entries (query_cache st')
                = del_key (ekey victim) (entries (query_cache st))
                  ++ [mkEntry (user_query, pdf_path, session_id) result (-1)]
              ∧ currsize (query_cache st') = 100%Z
              ∧ ∀ e e', e ∈ entries (query_cache st) -> e' ∈ entries (query_cache st) ->
                        (accesses e' < accesses e)%Z -> e ∈ entries (query_cache st'))).
Proof.
  intros Hreach. pose proof (reachable_caches_ok _ _ Hreach) as Hok.
  pose proof Hok as (Hp10 & [Hpnd Hpsz] & Hq100 & [Hqnd Hqsz]).
  split; [|split; [|split; [|split]]].
  - unfold QueryKey in *. repeat split; try assumption; lia.
  - intros env pdf_path Hin.
    destruct (getitem_present _ _ Hin) as (e & Hf & _).
    rewrite (get_or_create_indexes_hit env _ _ _ Hf). eexists _, _.
    split; [reflexivity|]. cbn [set_pdf_cache pdf_cache entries]. apply touch_counts.
  - intros env pdf_path Hi Hin.
    rewrite (get_or_create_indexes_miss _ _ _ _ Hin (load_pdf_chunks_importable _ _ _ Hi)).
    destruct (decide (currsize (pdf_cache st) = 10%Z)) as [Hfull|Hroom].
    + destruct (setitem_full (pdf_cache_pick env) pdf_path
                  (mkIndexData (extracted_texts env st pdf_path) pdf_path)
                  (pdf_cache st) Hpnd ltac:(lia) Hin ltac:(lia))
        as (victim & Hleast & ->).
      eexists _, _. split; [reflexivity|]. split; [lia|]. intros _.
      exists victim. cbn [set_pdf_cache pdf_cache entries].
      split; [exact Hleast|]. split; [reflexivity|]. split.
      * unfold currsize in *. cbn [entries]. destruct Hleast as [Hv _].
        pose proof (del_key_length (ekey victim) _ Hpnd (list_elem_of_fmap_2 ekey _ _ Hv)).
        rewrite length_app. cbn [length]. lia.
      * intros e e' He He' Hlt. apply elem_of_app. left.
        exact (more_accessed_stays _ _ _ _ Hpnd Hleast He He' Hlt).
    + rewrite setitem_room by (assumption || lia).
      eexists _, _. split; [reflexivity|]. split; [reflexivity|]. intros Hfull. lia.
  - intros env user_query pdf_path session_id Hin.
    destruct (run_full_pipeline_hit env _ _ _ _ Hin) as (e & _ & Hhit).
    eexists _, _. split; [exact Hhit|].
    cbn [set_query_cache query_cache pdf_cache entries]. split; [apply touch_counts|reflexivity].
  - intros env user_query pdf_path session_id Hi Hin.
    destruct (extract_relevant_clause_returns env pdf_path user_query 10 st Hok (or_introl Hi))
      as (found & st1 & He).
    destruct (run_full_pipeline_miss_spec _ _ _ _ _ _ _ Hok Hin He) as (c2 & Hset2 & Hrun).
    eexists _, _. split; [exact Hrun|]. cbn [pdf_cache query_cache]. split.
    { rewrite extract_relevant_clause_unfold in He.
      destruct (get_or_create_indexes env pdf_path st) as [[indexes|err] st2];
        [|discriminate].
      now injection He as _ <-. }
    destruct (decide (currsize (query_cache st) = 100%Z)) as [Hfull|Hroom].
    + match type of Hset2 with @setitem ?K ?V ?I ?p ?k ?v ?c = _ =>
        destruct (@setitem_full K V I p k v c Hqnd ltac:(unfold QueryKey in *; lia) Hin
                    (eq_trans Hfull (eq_sym Hq100)))
          as (victim & Hleast & Hset) end.
      rewrite Hset in Hset2. injection Hset2 as <-. cbn [entries].
      split; [unfold QueryKey in *; lia|]. intros _.
      exists victim. split; [exact Hleast|]. split; [reflexivity|]. split.
      * unfold currsize in *. cbn [entries]. destruct Hleast as [Hv _].
        pose proof (del_key_length (ekey victim) _ Hqnd (list_elem_of_fmap_2 ekey _ _ Hv)).
        rewrite length_app. cbn [length]. unfold QueryKey in *. lia.
      * intros e e' Hin1 Hin2 Hlt. apply elem_of_app. left.
        exact (more_accessed_stays _ _ _ _ Hqnd Hleast Hin1 Hin2 Hlt).
    + rewrite setitem_room in Hset2
        by (try assumption; unfold QueryKey in *; lia).
      injection Hset2 as <-. cbn [entries]. split; [reflexivity|].
      intros Hfull. contradiction.
Qed.

Lemma sample_full_reachable : reachable "/tmp" sample_full.
Proof.
  apply run_calls_reachable; [|apply reachable_init].
  split; [reflexivity|]. repeat constructor.
Qed.

(** The sample state is reached whichever entries the caches would remove
    among tied ones, no entry having left yet; in it the counts are the
    numbers of accesses made. *)
Lemma sample_full_any_choice pdf_pick query_pick :
  run_calls (sample_env_picking pdf_pick query_pick) sample_calls (initial_state ∅)
  = sample_full.
Proof. vm_compute. reflexivity. Qed.

Lemma sample_full_counts :
  map (fun e => (ekey e, accesses e)) (entries (pdf_cache sample_full))
  = map (fun path => (path, 11%Z)) sample_paths ++ [("/tmp/doc0.pdf", 1%Z)]
  ∧ map (fun e => (ekey e, accesses e)) (entries (query_cache sample_full))
    = flat_map (fun path =>
                  map (fun i : nat => (("fee", path, "session" +:+ pretty i), 2%Z))
                      (seq 0 11))
               sample_paths
      ++ [(("fee", "/tmp/doc0.pdf", "session0"), 1%Z)].
Proof. split; vm_compute; reflexivity. Qed.

Lemma caches_are_bounded_lfu_witness :
  (maxsize (pdf_cache sample_full) = 10 ∧ currsize (pdf_cache sample_full) <= 10
   ∧ maxsize (query_cache sample_full) = 100 ∧ currsize (query_cache sample_full) <= 100)%Z
  ∧ (∃ indexes st',
       get_or_create_indexes sample_env "/tmp/doc1.pdf" sample_full = (Return indexes, st')
       ∧ one_more_access "/tmp/doc1.pdf"
                         (entries (pdf_cache sample_full)) (entries (pdf_cache st')))
  ∧ (∃ indexes st' victim,
       get_or_create_indexes sample_env "/tmp/other.pdf" sample_full = (Return indexes, st')
       ∧ least_accessed victim (entries (pdf_cache sample_full))
       ∧ entries (pdf_cache st')
         = del_key (ekey victim) (entries (pdf_cache sample_full))
           ++ [mkEntry "/tmp/other.pdf" indexes (-1)]
       ∧ currsize (pdf_cache st') = 10%Z)
  ∧ (∃ result st',
       run_full_pipeline sample_env "fee" "/tmp/doc1.pdf" "session0" sample_full
       = (Return result, st')
       ∧ one_more_access ("fee", "/tmp/doc1.pdf", "session0")
                         (entries (query_cache sample_full)) (entries (query_cache st'))
       ∧ pdf_cache st' = pdf_cache sample_full)
  ∧ (∃ result st' victim,
       run_full_pipeline sample_env "tax" "/tmp/doc1.pdf" "session0" sample_full
       = (Return result, st')
       ∧ pdf_cache st'
         = pdf_cache (get_or_create_indexes sample_env "/tmp/doc1.pdf" sample_full).2
       ∧ least_accessed victim (entries (query_cache sample_full))
       ∧ entries (query_cache st')
         = del_key (ekey victim) (entries (query_cache sample_full))
           ++ [mkEntry ("tax", "/tmp/doc1.pdf", "session0") result (-1)]
       ∧ currsize (query_cache st') = 100%Z)
  ∧ map ekey (entries (pdf_cache
                         (get_or_create_indexes sample_env "/tmp/other.pdf" sample_full).2))
    = sample_paths ++ ["/tmp/other.pdf"]
  ∧ cache_contains ("fee", "/tmp/doc0.pdf", "session0")
      (query_cache
         (run_full_pipeline sample_env "tax" "/tmp/doc1.pdf" "session0" sample_full).2)
    = false
  ∧ cache_contains ("fee", "/tmp/doc1.pdf", "session0")
      (query_cache
         (run_full_pipeline sample_env "tax" "/tmp/doc1.pdf" "session0" sample_full).2)
    = true.
Proof.
  destruct (caches_are_bounded_lfu "/tmp" sample_full sample_full_reachable)
    as (Hbound & Hpdf_hit & Hpdf_miss & Hquery_hit & Hquery_miss).
  split; [exact Hbound|]. split; [|split; [|split; [|split]]].
  - apply Hpdf_hit. vm_compute. reflexivity.
  - destruct (Hpdf_miss sample_env "/tmp/other.pdf") as (indexes & st' & Hg & _ & Hfull);
      [reflexivity|vm_compute; reflexivity|].
    destruct Hfull as (victim & Hleast & Hentries & Hsize & _); [vm_compute; reflexivity|].
    exists indexes, st', victim. auto.
  - apply Hquery_hit. vm_compute. reflexivity.
  - destruct (Hquery_miss sample_env "tax" "/tmp/doc1.pdf" "session0")
      as (result & st' & Hrun & Hpdf & _ & Hfull);
      [reflexivity|vm_compute; reflexivity|].
    destruct Hfull as (victim & Hleast & Hentries & Hsize & _); [vm_compute; reflexivity|].
    exists result, st', victim. auto.
  - repeat split; vm_compute; reflexivity.
Defined.

(** * Further properties of the code *)

(** ** Query words *)

Lemma lower_char_isspace c : isspace (lower_char c) = isspace c.
Proof. destruct c as [[] [] [] [] [] [] [] []]; reflexivity. Qed.

Lemma lower_char_idem c : lower_char (lower_char c) = lower_char c.
Proof. destruct c as [[] [] [] [] [] [] [] []]; reflexivity. Qed.

Lemma str_lower_idem s : str_lower (str_lower s) = str_lower s.
Proof.
  induction s as [|c s IH]; [reflexivity|].
  cbn [str_lower]. now rewrite lower_char_idem, IH.
Qed.

Lemma str_lower_append a b : str_lower (a +:+ b) = str_lower a +:+ str_lower b.
Proof.
  induction a as [|c a IH]; [reflexivity|].
  rewrite append_cons. cbn [str_lower]. now rewrite IH, append_cons.
Qed.

Lemma str_forallb_append f a b :
  str_forallb f (a +:+ b) = str_forallb f a && str_forallb f b.
Proof.
  induction a as [|c a IH]; [reflexivity|].
  rewrite append_cons. cbn [str_forallb]. rewrite IH. apply andb_assoc.
Qed.

Lemma split_from_no_space cur s :
  no_space cur = true -> Forall (fun w => no_space w = true) (split_from cur s).
Proof.
  revert cur. induction s as [|c r IH]; intros cur Hcur; cbn [split_from].
  - destruct (decide (cur = EmptyString)); repeat constructor; assumption.
  - destruct (isspace c) eqn:Hc.
    + destruct (decide (cur = EmptyString)); [now apply IH|].
      constructor; [assumption|now apply IH].
    + apply IH. unfold no_space in *. rewrite str_forallb_append, Hcur.
      cbn [str_forallb]. now rewrite Hc.
Qed.

Lemma split_from_lower cur s :
  str_lower cur = cur -> str_lower s = s ->
  Forall (fun w => str_lower w = w) (split_from cur s).
Proof.
  revert cur. induction s as [|c r IH]; intros cur Hcur Hs; cbn [split_from].
  - destruct (decide (cur = EmptyString)); repeat constructor; assumption.
  - cbn [str_lower] in Hs. injection Hs as Hc Hr.
    destruct (isspace c).
    + destruct (decide (cur = EmptyString)); [now apply IH|].
      constructor; [assumption|now apply IH].
    + apply IH; [|assumption].
      rewrite str_lower_append, Hcur. cbn [str_lower]. now rewrite Hc.
Qed.

(** X1.  The words [simple_text_search] looks for, [query.lower().split()],
    are never empty, hold no whitespace and no upper-case ASCII letter. *)
Theorem query_words_shape query :
  Forall (fun word => word ≠ EmptyString ∧ no_space word = true ∧ str_lower word = word)
         (query_words query).
Proof.
  pose proof (query_words_nonempty query) as H1.
  pose proof (split_from_no_space EmptyString (str_lower query) eq_refl) as H2.
  pose proof (split_from_lower EmptyString (str_lower query) eq_refl (str_lower_idem query))
    as H3.
  fold (str_split (str_lower query)) in H2, H3. fold (query_words query) in H2, H3.
  rewrite Forall_forall in *. intros w Hw. auto.
Qed.

(** ** Search edge cases *)

Lemma split_from_all_space s : all_space s = true -> split_from EmptyString s = [].
Proof.
  induction s as [|c r IH]; [reflexivity|].
  unfold all_space in *. cbn [str_forallb split_from]. intros H.
  apply andb_true_iff in H as [Hc Hr]. rewrite Hc.
  rewrite decide_True by reflexivity. auto.
Qed.

Lemma str_lower_all_space s : all_space (str_lower s) = all_space s.
Proof.
  unfold all_space. induction s as [|c r IH]; [reflexivity|].
  cbn [str_lower str_forallb]. now rewrite lower_char_isspace, IH.
Qed.

Lemma scored_texts_no_words texts : scored_texts [] texts = [].
Proof.
  unfold scored_texts. induction texts as [|t texts IH]; [reflexivity|].
  cbn [fold_left]. exact IH.
Qed.

(** X2.  A query that is empty or holds whitespace only finds nothing,
    whatever the texts and the bound. *)
Theorem simple_text_search_blank_query query texts k :
  all_space query = true -> simple_text_search query texts k = [].
Proof.
  intros Hq. unfold simple_text_search, query_words, str_split.
  rewrite split_from_all_space by (now rewrite str_lower_all_space).
  rewrite scored_texts_no_words. unfold slice_to, sort_desc. cbn [foldr].
  now destruct (0 <=? k)%Z; rewrite take_nil.
Qed.

Lemma simple_text_search_blank_query_witness :
  simple_text_search "  " ["fee"; "tax and fee"] 5 = [].
Proof. apply simple_text_search_blank_query. reflexivity. Defined.

(** X3.  The search does not see the case of ASCII letters in the query:
    two queries with the same lower-case form give the same result, and so
    do a query and its lower-case form. *)
Theorem simple_text_search_ignores_query_case query query' texts k :
  str_lower query = str_lower query' ->
  simple_text_search query texts k = simple_text_search query' texts k
  ∧ simple_text_search (str_lower query) texts k = simple_text_search query texts k.
Proof.
  intros Hq. unfold simple_text_search, query_words.
  now rewrite Hq, str_lower_idem.
Qed.

Lemma simple_text_search_ignores_query_case_witness :
  simple_text_search "Fee TAX" ["fee"; "Tax"] 5 = simple_text_search "fEE tax" ["fee"; "Tax"] 5
  ∧ simple_text_search (str_lower "Fee TAX") ["fee"; "Tax"] 5
    = simple_text_search "Fee TAX" ["fee"; "Tax"] 5.
Proof. apply simple_text_search_ignores_query_case. reflexivity. Defined.

(** X4.  The search invents nothing: every text it returns is one of the
    given texts, it returns no more texts than it was given, and for a
    bound [k] that is not negative no more than [k]. *)
Theorem simple_text_search_bounds query texts k :
  (∀ text, text ∈ simple_text_search query texts k -> text ∈ texts)
  ∧ length (simple_text_search query texts k) <= length texts
  ∧ ((0 <= k)%Z -> length (simple_text_search query texts k) <= Z.to_nat k).
Proof.
  destruct (simple_text_search_prefix query texts k) as [rest Hrest].
  pose proof (ranked_perm (query_words query) texts) as Hperm.
  split; [|split].
  - intros text Hin.
    assert (text ∈ ranked (query_words query) texts) as Hr
      by (rewrite Hrest; apply elem_of_app; now left).
    rewrite Hperm in Hr. now apply list_elem_of_filter in Hr as [_ ?].
  - apply (f_equal length) in Hrest. rewrite length_app in Hrest.
    apply Permutation_length in Hperm.
    pose proof (length_filter (fun text => (0 < score (query_words query) text)%Z) texts).
    lia.
  - intros Hk. rewrite simple_text_search_take by assumption.
    rewrite length_take. lia.
Qed.

Lemma simple_text_search_bounds_witness :
  (0 <= 1)%Z ∧ length (simple_text_search "fee" ["fee"; "tax and fee"] 1) <= Z.to_nat 1.
Proof.
  split; [lia|].
  apply (simple_text_search_bounds "fee" ["fee"; "tax and fee"] 1). lia.
Defined.

(** ** Context and metadata *)

Lemma metadata_from_length pdf_path i passages :
  length (metadata_from pdf_path i passages) = length passages.
Proof.
  revert i. induction passages as [|p ps IH]; intros i; [reflexivity|].
  cbn [metadata_from length]. now rewrite IH.
Qed.

Lemma metadata_from_lookup pdf_path i passages (j : nat) passage :
  passages !! j = Some passage ->
  metadata_from pdf_path i passages !! j
  = Some (mkMetadata passage (basename pdf_path)
            ("Page " +:+ pretty (i + Z.of_nat j + 1)%Z) 1).
Proof.
  revert i j. induction passages as [|p ps IH]; intros i j Hj; [discriminate|].
  destruct j as [|j]; cbn [metadata_from]; simpl in Hj.
  - injection Hj as ->. rewrite Z.add_0_r. reflexivity.
  - replace (i + Z.of_nat (S j) + 1)%Z with (i + 1 + Z.of_nat j + 1)%Z by lia.
    exact (IH (i + 1)%Z j Hj).
Qed.

(** X5.  What [extract_relevant_clause] builds from the texts of an index:
    the context is the found passages joined by blank lines (empty when
    nothing is found), and there is one metadata entry per passage, in the
    same order, holding the passage, the base name of the PDF path, the
    score 1 and, as its page, the rank of the passage in the result counted
    from 1, not the number of the page the passage comes from. *)
Theorem relevant_clause_shape pdf_path user_query k texts :
  let passages := simple_text_search user_query texts k in
  let found := relevant_clause pdf_path user_query k texts in
  found.1 = str_join (nl +:+ nl) passages
  ∧ (passages = [] -> found = (EmptyString, []))
  ∧ length found.2 = length passages
  ∧ (∀ (j : nat) passage,
       passages !! j = Some passage ->
       found.2 !! j
       = Some (mkMetadata passage (basename pdf_path)
                 ("Page " +:+ pretty (Z.of_nat j + 1)%Z) 1)).
Proof.
  intros passages found. subst found. unfold relevant_clause. fold passages.
  destruct passages as [|p ps] eqn:Hp.
  - repeat split; try reflexivity. intros j passage Hj. discriminate.
  - cbn [fst snd]. split; [reflexivity|]. split; [discriminate|].
    split; [apply metadata_from_length|].
    intros j passage Hj. now rewrite (metadata_from_lookup _ 0 _ _ _ Hj).
Qed.

(** The page label is a rank: the only page that matches is the second of
    the file and is labelled as page 1. *)
Example relevant_clause_page_is_rank :
  (relevant_clause "/tmp/doc.pdf" "hello" 10 ["bye"; "hello world"]).2
  = [mkMetadata "hello world" "doc.pdf" "Page 1" 1].
Proof. reflexivity. Qed.

(** ** The PDF index cache *)

Lemma find_entry_touch {K V} `{EqDecision K} (k : K) (l : list (Entry K V)) e :
  find_entry k l = Some e ->
  find_entry k (touch k l) = Some (mkEntry (ekey e) (evalue e) (ecounter e - 1)).
Proof.
  induction l as [|x l IH]; cbn [find_entry touch map]; [discriminate|].
  destruct (decide (ekey x = k)) as [Hk|Hk].
  - intros Hf. injection Hf as <-. cbn [ekey]. now rewrite decide_True.
  - intros Hf. rewrite decide_False by assumption. now apply IH.
Qed.

Lemma setitem_finds {K V} `{EqDecision K} (pick : list K -> nat) (k : K) (v : V) c c' :
  setitem pick k v c = (Return tt, c') ->
  ∃ n, find_entry k (entries c') = Some (mkEntry k v n).
Proof.
  unfold setitem. destruct (maxsize c <? 1)%Z; [discriminate|].
  destruct (if cache_contains k c then _ else _) as [[[]|e] c1]; [|discriminate].
  intros Hs. injection Hs as <-. cbn [entries]. apply store_finds.
Qed.

(** After a call that returned, the path is in the cache with the index
    that was returned. *)
Lemma get_or_create_indexes_stores env pdf_path st indexes st' :
  get_or_create_indexes env pdf_path st = (Return indexes, st') ->
  ∃ e, find_entry pdf_path (entries (pdf_cache st')) = Some e ∧ evalue e = indexes.
Proof.
  destruct (find_entry pdf_path (entries (pdf_cache st))) as [e|] eqn:Hf.
  - rewrite (get_or_create_indexes_hit _ _ _ _ Hf). intros Hg. injection Hg as <- <-.
    cbn [set_pdf_cache pdf_cache entries]. rewrite (find_entry_touch _ _ _ Hf). eauto.
  - unfold get_or_create_indexes, bind, gets, on_pdf_cache, ret.
    unfold cache_contains. rewrite Hf.
    pose proof (load_pdf_chunks_state env pdf_path st) as Hl.
    destruct (load_pdf_chunks env pdf_path st) as [[chunks|err] st1]; [|discriminate].
    cbn in Hl. subst st1.
    destruct (setitem (pdf_cache_pick env) pdf_path (mkIndexData chunks pdf_path) (pdf_cache st))
      as [[[]|err] c1] eqn:Hset; [|discriminate].
    intros Hg. injection Hg as <- <-. cbn [set_pdf_cache pdf_cache].
    destruct (setitem_finds _ _ _ _ _ Hset) as [n Hn]. rewrite Hn. eauto.
Qed.

(** X6.  With [pypdf] installed, indexing a path that is not in the cache
    and whose file is missing, or is one the reader fails on, returns an
    index without texts and puts that empty index in the cache. *)
Theorem get_or_create_indexes_caches_empty env pdf_path st :
  caches_ok st ->
  pypdf_importable env = true ->
  cache_contains pdf_path (pdf_cache st) = false ->
  (fs st !! pdf_path = None ∨
   ∃ bytes, fs st !! pdf_path = Some bytes ∧ PdfReader_texts env pdf_path bytes = None) ->
  ∃ st',
    get_or_create_indexes env pdf_path st = (Return (mkIndexData [] pdf_path), st')
    ∧ (∃ e, find_entry pdf_path (entries (pdf_cache st')) = Some e
            ∧ evalue e = mkIndexData [] pdf_path)
    ∧ fs st' = fs st.
Proof.
  intros (Hp10 & Hpok & _) Hi Hin Hbad.
  assert (extracted_texts env st pdf_path = []) as Hempty
    by (unfold extracted_texts; destruct Hbad as [->|(bytes & -> & ->)]; reflexivity).
  pose proof (get_or_create_indexes_miss _ _ _ _ Hin (load_pdf_chunks_importable _ _ _ Hi))
    as Hg.
  rewrite Hempty in Hg.
  destruct (setitem_ok (pdf_cache_pick env) pdf_path (mkIndexData [] pdf_path) (pdf_cache st)
              Hpok ltac:(lia))
    as (c1 & Hset & _).
  rewrite Hset in Hg. eexists. split; [exact Hg|]. split; [|reflexivity].
  now apply (get_or_create_indexes_stores env pdf_path st).
Qed.

Lemma get_or_create_indexes_caches_empty_witness :
  ∃ st',
    get_or_create_indexes sample_env "/tmp/missing.pdf" sample_uploaded
    = (Return (mkIndexData [] "/tmp/missing.pdf"), st')
    ∧ (∃ e, find_entry "/tmp/missing.pdf" (entries (pdf_cache st')) = Some e
            ∧ evalue e = mkIndexData [] "/tmp/missing.pdf")
    ∧ fs st' = fs sample_uploaded.
Proof.
  apply get_or_create_indexes_caches_empty.
  - apply (reachable_caches_ok "/tmp"). apply reachable_step; [|apply reachable_init].
    split; [reflexivity|]. repeat constructor.
  - reflexivity.
  - vm_compute. reflexivity.
  - left. vm_compute. reflexivity.
Defined.

(** X7.  Once a call for a path has returned an index, every later call
    for that path returns the same index as long as the PDF cache is the
    one that call left, whatever has happened to the file and to the
    environment since: the file is not read again. *)
Theorem get_or_create_indexes_serves_cached env pdf_path st indexes st' :
  get_or_create_indexes env pdf_path st = (Return indexes, st') ->
  ∀ env2 st2,
    pdf_cache st2 = pdf_cache st' ->
    ∃ st3, get_or_create_indexes env2 pdf_path st2 = (Return indexes, st3)
           ∧ fs st3 = fs st2 ∧ sessions st3 = sessions st2.
Proof.
  intros Hg env2 st2 Hsame.
  destruct (get_or_create_indexes_stores _ _ _ _ _ Hg) as (e & Hf & <-).
  rewrite <- Hsame in Hf.
  rewrite (get_or_create_indexes_hit env2 _ _ _ Hf). eauto.
Qed.

Lemma get_or_create_indexes_serves_cached_witness :
  ∃ st3,
    get_or_create_indexes sample_env_no_pypdf "/tmp/tmpabc.pdf"
      (set_fs (fun _ => ∅) sample_asked)
    = (Return (mkIndexData ["hello world"; "bye"] "/tmp/tmpabc.pdf"), st3)
    ∧ fs st3 = fs (set_fs (fun _ => ∅) sample_asked)
    ∧ sessions st3 = sessions (set_fs (fun _ => ∅) sample_asked).
Proof.
  apply (get_or_create_indexes_serves_cached sample_env "/tmp/tmpabc.pdf" sample_uploaded
           (mkIndexData ["hello world"; "bye"] "/tmp/tmpabc.pdf")
           (get_or_create_indexes sample_env "/tmp/tmpabc.pdf" sample_uploaded).2).
  - vm_compute. reflexivity.
  - vm_compute. reflexivity.
Defined.

(** ** What the pipeline raises *)

Lemma get_or_create_indexes_raises env pdf_path st e st' :
  caches_ok st ->
  get_or_create_indexes env pdf_path st = (Raise e, st') ->
  e = ImportError "pypdf" ∧ st' = st
  ∧ pypdf_importable env = false ∧ cache_contains pdf_path (pdf_cache st) = false.
Proof.
  intros Hok Hg. pose proof Hok as (Hp10 & Hpok & _).
  destruct (cache_contains pdf_path (pdf_cache st)) eqn:Hin.
  - destruct (get_or_create_indexes_returns env pdf_path st (or_intror Hin) Hpok ltac:(lia))
      as (indexes & st1 & Hr). rewrite Hr in Hg. discriminate.
  - destruct (pypdf_importable env) eqn:Hi.
    + destruct (get_or_create_indexes_returns env pdf_path st (or_introl Hi) Hpok ltac:(lia))
        as (indexes & st1 & Hr). rewrite Hr in Hg. discriminate.
    + unfold get_or_create_indexes, bind, gets in Hg. rewrite Hin in Hg.
      rewrite (load_pdf_chunks_import_error _ _ _ Hi) in Hg.
      injection Hg as <- <-. auto.
Qed.

(** X8.  In a state whose caches are well formed, as every reachable state
    is, the one exception a call of [run_full_pipeline] can raise is the
    [ImportError] of the [pypdf] import: this happens only without [pypdf],
    for a question that is not in the answer cache about a PDF that is
    not in the PDF cache, and then the call has changed nothing: no
    message is recorded and nothing is cached. *)
Theorem run_full_pipeline_raises_only_import_error env user_query pdf_path session_id st e st' :
  caches_ok st ->
  run_full_pipeline env user_query pdf_path session_id st = (Raise e, st') ->
  e = ImportError "pypdf" ∧ st' = st
  ∧ pypdf_importable env = false
  ∧ cache_contains pdf_path (pdf_cache st) = false
  ∧ cache_contains (user_query, pdf_path, session_id) (query_cache st) = false.
Proof.
  intros Hok Hrun.
  destruct (cache_contains (user_query, pdf_path, session_id) (query_cache st)) eqn:Hin.
  - destruct (run_full_pipeline_hit env _ _ _ _ Hin) as (e1 & _ & Hhit).
    rewrite Hhit in Hrun. discriminate.
  - destruct (extract_relevant_clause env pdf_path user_query 10 st) as [[found|e1] st1] eqn:He.
    + destruct (run_full_pipeline_miss_spec _ _ _ _ _ _ _ Hok Hin He) as (c2 & _ & Hspec).
      rewrite Hspec in Hrun. discriminate.
    + rewrite (run_full_pipeline_miss_raises _ _ _ _ _ _ _ Hin He) in Hrun.
      injection Hrun as <- <-.
      rewrite extract_relevant_clause_unfold in He.
      destruct (get_or_create_indexes env pdf_path st) as [[indexes|e2] st2] eqn:Hg;
        [discriminate|].
      injection He as <- <-.
      destruct (get_or_create_indexes_raises _ _ _ _ _ Hok Hg) as (-> & -> & Hi & Hp).
      auto.
Qed.

Lemma run_full_pipeline_raises_only_import_error_witness :
  ImportError "pypdf" = ImportError "pypdf" ∧ sample_uploaded = sample_uploaded
  ∧ pypdf_importable sample_env_no_pypdf = false
  ∧ cache_contains "/tmp/tmpabc.pdf" (pdf_cache sample_uploaded) = false
  ∧ cache_contains ("hello there", "/tmp/tmpabc.pdf", "s1") (query_cache sample_uploaded)
    = false.
Proof.
  apply (run_full_pipeline_raises_only_import_error sample_env_no_pypdf
           "hello there" "/tmp/tmpabc.pdf" "s1" sample_uploaded).
  - apply (reachable_caches_ok "/tmp"). apply reachable_step; [|apply reachable_init].
    split; [reflexivity|]. repeat constructor.
  - vm_compute. reflexivity.
Defined.

(** ** Repeated questions *)

(** After a call that returned, the answer is in the answer cache. *)
Lemma run_full_pipeline_stores env user_query pdf_path session_id st result st' :
  caches_ok st ->
  run_full_pipeline env user_query pdf_path session_id st = (Return result, st') ->
  ∃ e, find_entry (user_query, pdf_path, session_id) (entries (query_cache st')) = Some e
       ∧ evalue e = result.
Proof.
  intros Hok Hrun.
  destruct (cache_contains (user_query, pdf_path, session_id) (query_cache st)) eqn:Hin.
  - destruct (run_full_pipeline_hit env _ _ _ _ Hin) as (e & Hf & Hhit).
    rewrite Hhit in Hrun. injection Hrun as <- <-.
    cbn [set_query_cache query_cache entries].
    eexists. split; [exact (find_entry_touch _ _ _ Hf)|reflexivity].
  - destruct (extract_relevant_clause env pdf_path user_query 10 st) as [[found|e1] st1] eqn:He.
    + destruct (run_full_pipeline_miss_spec _ _ _ _ _ _ _ Hok Hin He) as (c2 & Hset & Hspec).
      rewrite Hspec in Hrun. injection Hrun as <- <-. cbn [query_cache].
      destruct (setitem_finds _ _ _ _ _ Hset) as [n Hn].
      eexists. split; [exact Hn|reflexivity].
    + rewrite (run_full_pipeline_miss_raises _ _ _ _ _ _ _ Hin He) in Hrun. discriminate.
Qed.

(** X9.  Asking the same question about the same PDF in the same session
    again gives the same answer: after a call that returned, a call with
    the same three arguments returns the same result as long as the answer
    cache is the one the first call left, whatever the environment, the
    files and the memories have become; it does not search, calls no model
    and leaves the memories, the PDF cache and the files as they are. *)
Theorem run_full_pipeline_repeats env user_query pdf_path session_id st result st' :
  caches_ok st ->
  run_full_pipeline env user_query pdf_path session_id st = (Return result, st') ->
  ∀ env2 st1,
    query_cache st1 = query_cache st' ->
    ∃ st2,
      run_full_pipeline env2 user_query pdf_path session_id st1 = (Return result, st2)
      ∧ sessions st2 = sessions st1 ∧ pdf_cache st2 = pdf_cache st1 ∧ fs st2 = fs st1.
Proof.
  intros Hok Hrun env2 st1 Hsame.
  destruct (run_full_pipeline_stores _ _ _ _ _ _ _ Hok Hrun) as (e & Hf & <-).
  rewrite <- Hsame in Hf.
  destruct (run_full_pipeline_hit env2 _ _ _ _ (find_entry_contains _ _ _ Hf))
    as (e2 & Hf2 & Hhit).
  rewrite Hf in Hf2. injection Hf2 as <-. rewrite Hhit. eauto.
Qed.

Lemma run_full_pipeline_repeats_witness :
  ∃ st2,
    run_full_pipeline sample_env_llm_answers "hello there" "/tmp/tmpabc.pdf" "s1"
      (set_fs (fun _ => ∅) sample_asked)
    = (Return (returned (mkAnswer EmptyString [])
                 (run_full_pipeline sample_env "hello there" "/tmp/tmpabc.pdf" "s1"
                    sample_uploaded).1), st2)
    ∧ sessions st2 = sessions (set_fs (fun _ => ∅) sample_asked)
    ∧ pdf_cache st2 = pdf_cache (set_fs (fun _ => ∅) sample_asked)
    ∧ fs st2 = fs (set_fs (fun _ => ∅) sample_asked).
Proof.
  apply (run_full_pipeline_repeats sample_env "hello there" "/tmp/tmpabc.pdf" "s1"
           sample_uploaded _ sample_asked).
  - apply (reachable_caches_ok "/tmp"). apply reachable_step; [|apply reachable_init].
    split; [reflexivity|]. repeat constructor.
  - vm_compute. reflexivity.
  - reflexivity.
Defined.

Lemma reset_memory_clears_session_state session_id st :
  query_cache (reset_memory session_id st).2 = query_cache st
  ∧ session_history (reset_memory session_id st).2 session_id = [].
Proof.
  unfold reset_memory, MemoryManager_reset_memory, session_history.
  destruct (sessions st !! session_id) eqn:Hs; cbn [snd set_sessions sessions query_cache].
  - now rewrite lookup_insert_eq.
  - now rewrite Hs.
Qed.

(** X10.  Resetting a session does not forget its cached answers: after a
    call that returned and a reset of the session's memory, the same
    question is answered from the cache with the same result, and the
    history of the session stays empty, so that the answer given is not
    in the history. *)
Theorem reset_memory_keeps_cached_answers env user_query pdf_path session_id st result st' :
  caches_ok st ->
  run_full_pipeline env user_query pdf_path session_id st = (Return result, st') ->
  ∀ env2, ∃ st3,
    run_full_pipeline env2 user_query pdf_path session_id (reset_memory session_id st').2
    = (Return result, st3)
    ∧ session_history st3 session_id = [].
Proof.
  intros Hok Hrun env2.
  destruct (run_full_pipeline_stores _ _ _ _ _ _ _ Hok Hrun) as (e & Hf & <-).
  destruct (reset_memory_clears_session_state session_id st')
    as (Hq & Hh).
  rewrite <- Hq in Hf.
  destruct (run_full_pipeline_hit env2 _ _ _ _ (find_entry_contains _ _ _ Hf))
    as (e2 & Hf2 & Hhit).
  rewrite Hf in Hf2. injection Hf2 as <-. rewrite Hhit.
  eexists. split; [reflexivity|]. exact Hh.
Qed.

Lemma reset_memory_keeps_cached_answers_witness :
  ∃ st3,
    run_full_pipeline sample_env_llm_answers "hello there" "/tmp/tmpabc.pdf" "s1"
      (reset_memory "s1" sample_asked).2
    = (Return (returned (mkAnswer EmptyString [])
                 (run_full_pipeline sample_env "hello there" "/tmp/tmpabc.pdf" "s1"
                    sample_uploaded).1), st3)
    ∧ session_history st3 "s1" = [].
Proof.
  apply (reset_memory_keeps_cached_answers sample_env "hello there" "/tmp/tmpabc.pdf" "s1"
           sample_uploaded _ sample_asked).
  - apply (reachable_caches_ok "/tmp"). apply reachable_step; [|apply reachable_init].
    split; [reflexivity|]. repeat constructor.
  - vm_compute. reflexivity.
Defined.

(** ** The hosted model *)

(** X11.  With [pypdf] installed, an API key, the client library and a
    client object, a question that is not in the answer cache is answered
    with what the model returns for the prompt, together with the metadata
    of the search, and the history of the session grows by the user's
    message and the assistant's message holding that answer. *)
Theorem run_full_pipeline_llm_answer env user_query pdf_path session_id st :
  caches_ok st ->
  pypdf_importable env = true ->
  cache_contains (user_query, pdf_path, session_id) (query_cache st) = false ->
  api_key_set env = true ->
  langchain_groq_importable env = true ->
  ChatGroq_constructs env = true ->
  ∃ found st1,
    extract_relevant_clause env pdf_path user_query 10 st = (Return found, st1)
    ∧ ∀ llm_response_content,
        llm_invoke env (pipeline_prompt st user_query session_id found)
        = Some llm_response_content ->
        ∃ st',
          run_full_pipeline env user_query pdf_path session_id st
          = (Return (mkAnswer llm_response_content found.2), st')
          ∧ session_history st' session_id
            = session_history st session_id
              ++ [user_message user_query; assistant_message llm_response_content].
Proof.
  intros Hok Hi Hin Hkey Hlib Hctor.
  destruct (extract_relevant_clause_returns env pdf_path user_query 10 st Hok (or_introl Hi))
    as (found & st1 & He).
  exists found, st1. split; [exact He|]. intros llm_response_content Hllm.
  destruct (run_full_pipeline_miss_spec _ _ _ _ _ _ _ Hok Hin He) as (c2 & _ & Hrun).
  unfold llm_outcome in Hrun. rewrite Hkey, Hlib, Hctor, Hllm in Hrun.
  cbn [andb answer_and_messages fst snd] in Hrun.
  eexists. split; [exact Hrun|]. apply session_history_stored.
Qed.

Lemma run_full_pipeline_llm_answer_witness :
  ∃ found st1,
    extract_relevant_clause sample_env_llm_answers "/tmp/tmpabc.pdf" "hello there" 10
      sample_uploaded = (Return found, st1)
    ∧ ∀ llm_response_content,
        llm_invoke sample_env_llm_answers
          (pipeline_prompt sample_uploaded "hello there" "s1" found)
        = Some llm_response_content ->
        ∃ st',
          run_full_pipeline sample_env_llm_answers "hello there" "/tmp/tmpabc.pdf" "s1"
            sample_uploaded
          = (Return (mkAnswer llm_response_content found.2), st')
          ∧ session_history st' "s1"
            = session_history sample_uploaded "s1"
              ++ [user_message "hello there"; assistant_message llm_response_content].
Proof.
  apply run_full_pipeline_llm_answer.
  - apply (reachable_caches_ok "/tmp"). apply reachable_step; [|apply reachable_init].
    split; [reflexivity|]. repeat constructor.
  - reflexivity.
  - vm_compute. reflexivity.
  - reflexivity.
  - reflexivity.
  - reflexivity.
Defined.

(** X12.  Without an API key, the variable unset or empty, the model is
    not consulted: with [pypdf] installed, a question that is not in the
    answer cache gets the mock answer built from the question and the
    context found, whatever the client library and the model would do, and
    the history grows by the user's message and that mock answer. *)
Theorem run_full_pipeline_without_api_key env user_query pdf_path session_id st :
  caches_ok st ->
  pypdf_importable env = true ->
  cache_contains (user_query, pdf_path, session_id) (query_cache st) = false ->
  groq_api_key env = None ∨ groq_api_key env = Some EmptyString ->
  ∃ found st1 st',
    extract_relevant_clause env pdf_path user_query 10 st = (Return found, st1)
    ∧ run_full_pipeline env user_query pdf_path session_id st
      = (Return (mkAnswer (mock_answer user_query found.1) found.2), st')
    ∧ session_history st' session_id
      = session_history st session_id
        ++ [user_message user_query;
            assistant_message (mock_answer user_query found.1)].
Proof.
  intros Hok Hi Hin Hkey.
  assert (api_key_set env = false) as Hset
    by (unfold api_key_set; destruct Hkey as [->| ->]; reflexivity).
  destruct (extract_relevant_clause_returns env pdf_path user_query 10 st Hok (or_introl Hi))
    as (found & st1 & He).
  destruct (run_full_pipeline_miss_spec _ _ _ _ _ _ _ Hok Hin He) as (c2 & _ & Hrun).
  unfold llm_outcome in Hrun. rewrite Hset in Hrun.
  cbn [andb answer_and_messages fst snd] in Hrun.
  eexists found, st1, _. split; [exact He|]. split; [exact Hrun|].
  apply session_history_stored.
Qed.

Lemma run_full_pipeline_without_api_key_witness :
  ∃ found st1 st',
    extract_relevant_clause sample_env "/tmp/tmpabc.pdf" "hello there" 10 sample_uploaded
    = (Return found, st1)
    ∧ run_full_pipeline sample_env "hello there" "/tmp/tmpabc.pdf" "s1" sample_uploaded
      = (Return (mkAnswer (mock_answer "hello there" found.1) found.2), st')
    ∧ session_history st' "s1"
      = session_history sample_uploaded "s1"
        ++ [user_message "hello there";
            assistant_message (mock_answer "hello there" found.1)].
Proof.
  apply run_full_pipeline_without_api_key.
  - apply (reachable_caches_ok "/tmp"). apply reachable_step; [|apply reachable_init].
    split; [reflexivity|]. repeat constructor.
  - reflexivity.
  - vm_compute. reflexivity.
  - left. reflexivity.
Defined.

(** ** Session memory *)

(** X13.  [get_memory] gives a session its memory: the stored one, or a
    new empty one that it stores when the session is unknown.  Asking
    again returns the same memory and changes nothing more; no other
    session is touched and no history changes. *)
Theorem get_memory_is_idempotent session_id st :
  ∃ memory st1,
    get_memory session_id st = (Return memory, st1)
    ∧ sessions st1 !! session_id = Some memory
    ∧ memory = default empty_memory (sessions st !! session_id)
    ∧ get_memory session_id st1 = (Return memory, st1)
    ∧ (∀ other, other ≠ session_id -> sessions st1 !! other = sessions st !! other)
    ∧ (∀ any, session_history st1 any = session_history st any).
Proof.
  unfold get_memory, session_history.
  destruct (sessions st !! session_id) as [memory|] eqn:Hs.
  - exists memory, st. rewrite Hs. repeat split; auto.
  - eexists _, _. split; [reflexivity|]. cbn [set_sessions sessions].
    rewrite lookup_insert_eq. repeat split; auto.
    + intros other Hne. now apply lookup_insert_ne.
    + intros any. rewrite lookup_insert.
      destruct (decide (session_id = any)) as [<-|]; [now rewrite Hs|reflexivity].
Qed.

(** ** Cache bookkeeping *)

(** X14.  While a cache has room, an insertion evicts nothing: indexing a
    new path with fewer than 10 paths cached, and answering a new question
    with fewer than 100 answers cached, add the new entry, with one
    access, after the entries that were there, which are kept as they
    are. *)
Theorem caches_keep_entries_while_room dir st :
  reachable dir st ->
  (∀ env pdf_path,
     pypdf_importable env = true ->
     cache_contains pdf_path (pdf_cache st) = false ->
     (currsize (pdf_cache st) < 10)%Z ->
     ∃ indexes st',
       get_or_create_indexes env pdf_path st = (Return indexes, st')
       ∧ entries (pdf_cache st') = entries (pdf_cache st) ++ [mkEntry pdf_path indexes (-1)])
  ∧ (∀ env user_query pdf_path session_id,
       pypdf_importable env = true ->
       cache_contains (user_query, pdf_path, session_id) (query_cache st) = false ->
       (currsize (query_cache st) < 100)%Z ->
       ∃ result st',
         run_full_pipeline env user_query pdf_path session_id st = (Return result, st')
         ∧ entries (query_cache st')
           = entries (query_cache st)
             ++ [mkEntry (user_query, pdf_path, session_id) result (-1)]).
Proof.
  intros Hreach. pose proof (reachable_caches_ok _ _ Hreach) as Hok.
  pose proof Hok as (Hp10 & Hpok & Hq100 & Hqok). split.
  - intros env pdf_path Hi Hin Hroom.
    rewrite (get_or_create_indexes_miss _ _ _ _ Hin (load_pdf_chunks_importable _ _ _ Hi)).
    rewrite setitem_room by (assumption || lia). eauto.
  - intros env user_query pdf_path session_id Hi Hin Hroom.
    destruct (extract_relevant_clause_returns env pdf_path user_query 10 st Hok (or_introl Hi))
      as (found & st1 & He).
    destruct (run_full_pipeline_miss_spec _ _ _ _ _ _ _ Hok Hin He) as (c2 & Hset & Hrun).
    rewrite setitem_room in Hset
      by (try assumption; unfold QueryKey in *; lia).
    injection Hset as <-. eexists _, _. split; [exact Hrun|]. reflexivity.
Qed.

Lemma caches_keep_entries_while_room_witness :
  (∃ indexes st',
     get_or_create_indexes sample_env "/tmp/tmpabc.pdf" sample_uploaded
     = (Return indexes, st')
     ∧ entries (pdf_cache st')
       = entries (pdf_cache sample_uploaded) ++ [mkEntry "/tmp/tmpabc.pdf" indexes (-1)])
  ∧ (∃ result st',
       run_full_pipeline sample_env "hello there" "/tmp/tmpabc.pdf" "s1" sample_uploaded
       = (Return result, st')
       ∧ entries (query_cache st')
         = entries (query_cache sample_uploaded)
           ++ [mkEntry ("hello there", "/tmp/tmpabc.pdf", "s1") result (-1)]).
Proof.
  assert (reachable "/tmp" sample_uploaded) as Hreach.
  { apply reachable_step; [|apply reachable_init].
    split; [reflexivity|]. repeat constructor. }
  destruct (caches_keep_entries_while_room "/tmp" sample_uploaded Hreach) as [Hpdf Hquery].
  split.
  - apply Hpdf; [reflexivity|vm_compute; reflexivity|vm_compute; reflexivity].
  - apply Hquery; [reflexivity|vm_compute; reflexivity|vm_compute; reflexivity].
Defined.

(** X15.  Answering from the answer cache counts one more access for the
    key asked for and changes nothing else in that cache: the entries keep
    their order, keys and values, and the other entries their counts. *)
Theorem cache_hit_counts_one_access env user_query pdf_path session_id st :
  cache_contains (user_query, pdf_path, session_id) (query_cache st) = true ->
  ∃ result st',
    run_full_pipeline env user_query pdf_path session_id st = (Return result, st')
    ∧ maxsize (query_cache st') = maxsize (query_cache st)
    ∧ Forall2 (fun e e' =>
                 ekey e' = ekey e ∧ evalue e' = evalue e
                 ∧ accesses e'
                   = (accesses e
                      + if decide (ekey e = (user_query, pdf_path, session_id))
                        then 1 else 0)%Z)
              (entries (query_cache st)) (entries (query_cache st')).
Proof.
  intros Hin. destruct (run_full_pipeline_hit env _ _ _ _ Hin) as (e & _ & Hhit).
  eexists _, _. split; [exact Hhit|]. split; [reflexivity|].
  cbn [set_query_cache query_cache entries]. apply touch_counts.
Qed.

Lemma cache_hit_counts_one_access_witness :
  ∃ result st',
    run_full_pipeline sample_env "hello there" "/tmp/tmpabc.pdf" "s1" sample_asked
    = (Return result, st')
    ∧ maxsize (query_cache st') = maxsize (query_cache sample_asked)
    ∧ Forall2 (fun e e' =>
                 ekey e' = ekey e ∧ evalue e' = evalue e
                 ∧ accesses e'
                   = (accesses e
                      + if decide (ekey e = ("hello there", "/tmp/tmpabc.pdf", "s1"))
                        then 1 else 0)%Z)
              (entries (query_cache sample_asked)) (entries (query_cache st')).
Proof.
  apply cache_hit_counts_one_access. vm_compute. reflexivity.
Defined.

(** ** What each module leaves alone *)

Lemma get_or_create_indexes_only_pdf_cache env pdf_path st :
  ∃ c', (get_or_create_indexes env pdf_path st).2 = set_pdf_cache c' st.
Proof.
  unfold get_or_create_indexes, bind, gets, ret, on_pdf_cache.
  destruct (cache_contains pdf_path (pdf_cache st)).
  - destruct (getitem pdf_path (pdf_cache st)) as [r c]. eauto.
  - pose proof (load_pdf_chunks_state env pdf_path st) as Hl.
    destruct (load_pdf_chunks env pdf_path st) as [[chunks|e] st1]; cbn in Hl; subst st1.
    + destruct (setitem (pdf_cache_pick env) pdf_path (mkIndexData chunks pdf_path)
                        (pdf_cache st)) as [[[]|e] c];
        eauto.
    + exists (pdf_cache st). now rewrite set_pdf_cache_same.
Qed.

(** X16.  The pipeline never touches the uploads or the files: whatever
    the state and the outcome, a call of [run_full_pipeline] leaves the
    uploaded-PDF map and the files on disk as they are, and the memory of
    every session other than the one it is called for. *)
Theorem run_full_pipeline_leaves_uploads env user_query pdf_path session_id st :
  let st' := (run_full_pipeline env user_query pdf_path session_id st).2 in
  uploaded_pdfs st' = uploaded_pdfs st
  ∧ fs st' = fs st
  ∧ (∀ other, other ≠ session_id -> sessions st' !! other = sessions st !! other).
Proof.
  cbn zeta.
  destruct (cache_contains (user_query, pdf_path, session_id) (query_cache st)) eqn:Hin.
  - destruct (run_full_pipeline_hit env _ _ _ _ Hin) as (e & _ & ->). auto.
  - rewrite (run_full_pipeline_miss env _ _ _ _ Hin), run_full_pipeline_func_unfold,
      extract_relevant_clause_unfold.
    destruct (get_or_create_indexes_only_pdf_cache env pdf_path st) as [c' Hc'].
    destruct (get_or_create_indexes env pdf_path st) as [[indexes|e] st1];
      cbn [snd] in Hc'; subst st1; [|auto].
    cbv beta iota zeta.
    match goal with |- context [@setitem ?K ?V ?I ?p ?k ?v ?c] =>
      destruct (@setitem K V I p k v c) as [[[]|e] c2] end;
      cbn [snd set_query_cache set_sessions set_pdf_cache uploaded_pdfs fs sessions];
      (split; [reflexivity|]; split; [reflexivity|];
       intros other Hne; now rewrite lookup_insert_ne).
Qed.

(** X17.  The HTTP handlers never touch the pipeline's state: uploading,
    querying and deleting, whatever their outcome, leave both caches and
    every session's memory as they are. *)
Theorem handlers_leave_pipeline_state env st :
  (∀ file, let st' := (upload_pdf env file st).2 in
           pdf_cache st' = pdf_cache st ∧ query_cache st' = query_cache st
           ∧ sessions st' = sessions st)
  ∧ (∀ pdf_id question session_id,
       (query_pdf pdf_id question session_id st).2 = st)
  ∧ (∀ pdf_id, let st' := (delete_pdf env pdf_id st).2 in
               pdf_cache st' = pdf_cache st ∧ query_cache st' = query_cache st
               ∧ sessions st' = sessions st).
Proof.
  split; [|split].
  - intros file. cbn zeta. rewrite upload_pdf_unfold.
    destruct (negb _); [auto|]. destruct (_ <? _)%Z; [auto|].
    destruct (first_unused _ _ _); auto.
  - intros pdf_id question session_id. rewrite query_pdf_unfold.
    now destruct (uploaded_pdfs st !! pdf_id).
  - intros pdf_id. cbn zeta. rewrite delete_pdf_unfold.
    destruct (uploaded_pdfs st !! pdf_id) as [path|]; [|auto].
    cbn zeta. destruct (fs st !! path); [|auto].
    destruct (os_remove_error env path); auto.
Qed.

(** ** Uploads, seen through the other handlers *)

(** A returned upload, taken apart. *)
Lemma upload_pdf_returned env file st response st' :
  upload_pdf env file st = (Return response, st') ->
  str_endswith (filename file) ".pdf" = true
  ∧ (Z.of_nat (length (file_bytes file)) <= max_size)%Z
  ∧ ∃ pdf_path,
      first_unused env (fs st) (candidate_names env) = Some pdf_path
      ∧ response = mkUploadResponse (basename pdf_path) (filename file)
                     "✅ PDF uploaded successfully (minimal version)"
      ∧ st' = mkState (<[basename pdf_path := pdf_path]> (uploaded_pdfs st))
                      (<[pdf_path := file_bytes file]> (fs st))
                      (pdf_cache st) (query_cache st) (sessions st).
Proof.
  rewrite upload_pdf_unfold.
  destruct (str_endswith (filename file) ".pdf"); cbn [negb]; [|discriminate].
  destruct (Z.ltb_spec max_size (Z.of_nat (length (file_bytes file)))); [discriminate|].
  destruct (first_unused env (fs st) (candidate_names env)) as [pdf_path|]; [|discriminate].
  intros Hu. injection Hu as <- <-. eauto 10.
Qed.

(** The identifier of a new temporary file is not in the map of a
    reachable state. *)
Lemma first_unused_id_fresh dir env st pdf_path :
  env_ok dir env -> reachable dir st ->
  first_unused env (fs st) (candidate_names env) = Some pdf_path ->
  uploaded_pdfs st !! basename pdf_path = None ∧ fs st !! pdf_path = None.
Proof.
  intros [Hdir Hnames] Hreach Hfirst.
  apply first_unused_spec in Hfirst as (Hfresh & name & Hin & ->).
  split; [|assumption].
  rewrite Forall_forall in Hnames. specialize (Hnames name Hin).
  destruct (uploaded_pdfs st !! basename (temp_path env name)) as [p0|] eqn:Hid;
    [|reflexivity].
  destruct (reachable_uploads_ok _ _ Hreach _ _ Hid) as [Hp0 [bytes Hex]].
  rewrite <- Hdir, <- temp_path_basename in Hp0 by assumption. subst p0. congruence.
Qed.

(** X18.  An upload that returns was a valid one and can be used at once:
    the file name ends in [.pdf], the payload has at most 10 * 1024 * 1024
    bytes, the identifier returned is in the map with the path of a file
    that holds exactly the payload, a query with that identifier returns
    instead of raising 404, and the response repeats the file name sent. *)
Theorem upload_pdf_then_query env file st response st' :
  upload_pdf env file st = (Return response, st') ->
  str_endswith (filename file) ".pdf" = true
  ∧ (Z.of_nat (length (file_bytes file)) <= 10 * 1024 * 1024)%Z
  ∧ up_filename response = filename file
  ∧ (∃ pdf_path, uploaded_pdfs st' !! up_pdf_id response = Some pdf_path
                 ∧ fs st' !! pdf_path = Some (file_bytes file))
  ∧ (∀ question session_id,
       ∃ answer, query_pdf (up_pdf_id response) question session_id st'
                 = (Return answer, st')).
Proof.
  intros Hu. destruct (upload_pdf_returned _ _ _ _ _ Hu)
    as (Hname & Hsize & pdf_path & _ & -> & ->).
  split; [assumption|]. split; [exact Hsize|]. split; [reflexivity|].
  cbn [up_pdf_id uploaded_pdfs fs]. split.
  - exists pdf_path. now rewrite !lookup_insert_eq.
  - intros question session_id. rewrite query_pdf_unfold. cbn [uploaded_pdfs].
    rewrite lookup_insert_eq. eauto.
Qed.

Lemma upload_pdf_then_query_witness :
  str_endswith (filename sample_file) ".pdf" = true
  ∧ (Z.of_nat (length (file_bytes sample_file)) <= 10 * 1024 * 1024)%Z
  ∧ up_filename (returned (mkUploadResponse EmptyString EmptyString EmptyString)
                   (upload_pdf sample_env sample_file (initial_state ∅)).1)
    = filename sample_file
  ∧ (∃ pdf_path,
       uploaded_pdfs sample_uploaded
       !! up_pdf_id (returned (mkUploadResponse EmptyString EmptyString EmptyString)
                       (upload_pdf sample_env sample_file (initial_state ∅)).1)
       = Some pdf_path
       ∧ fs sample_uploaded !! pdf_path = Some (file_bytes sample_file))
  ∧ (∀ question session_id,
       ∃ answer,
         query_pdf (up_pdf_id (returned (mkUploadResponse EmptyString EmptyString EmptyString)
                                 (upload_pdf sample_env sample_file (initial_state ∅)).1))
           question session_id sample_uploaded
         = (Return answer, sample_uploaded)).
Proof.
  apply (upload_pdf_then_query sample_env sample_file (initial_state ∅)).
  vm_compute. reflexivity.
Defined.

(** X19.  Upload and deletion undo each other: in a reachable state, an
    upload that returns followed by a deletion of the returned identifier,
    with an [os.remove] that works for the stored file, returns and gives
    back exactly the state before the upload, map and files. *)
Theorem upload_pdf_then_delete dir env file st response st1 env2 :
  env_ok dir env -> reachable dir st ->
  upload_pdf env file st = (Return response, st1) ->
  (∀ pdf_path, uploaded_pdfs st1 !! up_pdf_id response = Some pdf_path ->
               os_remove_error env2 pdf_path = None) ->
  delete_pdf env2 (up_pdf_id response) st1
  = (Return (mkDeleteResponse ("✅ Deleted " +:+ up_pdf_id response) (up_pdf_id response)), st).
Proof.
  intros Henv Hreach Hu Hrm.
  destruct (upload_pdf_returned _ _ _ _ _ Hu) as (_ & _ & pdf_path & Hfirst & -> & ->).
  destruct (first_unused_id_fresh _ _ _ _ Henv Hreach Hfirst) as [Hid Hfile].
  cbn [up_pdf_id uploaded_pdfs] in *.
  specialize (Hrm pdf_path (lookup_insert_eq _ _ _)).
  rewrite delete_pdf_unfold. cbn [uploaded_pdfs fs]. rewrite lookup_insert_eq. cbn zeta.
  rewrite lookup_insert_eq, Hrm. f_equal.
  unfold set_fs, set_uploaded_pdfs. cbn [uploaded_pdfs fs pdf_cache query_cache sessions].
  rewrite !delete_insert_id by assumption. now destruct st.
Qed.

Lemma upload_pdf_then_delete_witness :
  delete_pdf sample_env "tmpabc.pdf" sample_uploaded
  = (Return (mkDeleteResponse ("✅ Deleted " +:+ "tmpabc.pdf") "tmpabc.pdf"), initial_state ∅).
Proof.
  apply (upload_pdf_then_delete "/tmp" sample_env sample_file (initial_state ∅)
           (mkUploadResponse "tmpabc.pdf" "report.pdf"
              "✅ PDF uploaded successfully (minimal version)")
           sample_uploaded sample_env).
  - split; [reflexivity|]. repeat constructor.
  - apply reachable_init.
  - vm_compute. reflexivity.
  - intros pdf_path _. reflexivity.
Defined.

(** X20.  An upload never disturbs an earlier one: in a reachable state,
    after an upload that returns, every identifier that was in the map
    still has its path and the file at that path still has its content,
    and the number of identifiers has grown by one. *)
Theorem upload_pdf_keeps_earlier_uploads dir env file st response st' :
  env_ok dir env -> reachable dir st ->
  upload_pdf env file st = (Return response, st') ->
  (∀ pdf_id pdf_path,
     uploaded_pdfs st !! pdf_id = Some pdf_path ->
     uploaded_pdfs st' !! pdf_id = Some pdf_path ∧ fs st' !! pdf_path = fs st !! pdf_path)
  ∧ size (uploaded_pdfs st') = S (size (uploaded_pdfs st)).
Proof.
  intros Henv Hreach Hu.
  destruct (upload_pdf_returned _ _ _ _ _ Hu) as (_ & _ & new_path & Hfirst & -> & ->).
  destruct (first_unused_id_fresh _ _ _ _ Henv Hreach Hfirst) as [Hid Hfile].
  cbn [uploaded_pdfs fs]. split.
  - intros pdf_id pdf_path Hold.
    destruct (reachable_uploads_ok _ _ Hreach _ _ Hold) as [_ [bytes Hex]].
    rewrite !lookup_insert_ne by congruence. auto.
  - now apply map_size_insert_None.
Qed.

Lemma upload_pdf_keeps_earlier_uploads_witness :
  (∀ pdf_id pdf_path,
     uploaded_pdfs sample_uploaded !! pdf_id = Some pdf_path ->
     uploaded_pdfs (upload_pdf sample_env sample_file sample_uploaded).2 !! pdf_id
     = Some pdf_path
     ∧ fs (upload_pdf sample_env sample_file sample_uploaded).2 !! pdf_path
       = fs sample_uploaded !! pdf_path)
  ∧ size (uploaded_pdfs (upload_pdf sample_env sample_file sample_uploaded).2)
    = S (size (uploaded_pdfs sample_uploaded)).
Proof.
  apply (upload_pdf_keeps_earlier_uploads "/tmp" sample_env sample_file sample_uploaded
           (mkUploadResponse "tmpdef.pdf" "report.pdf"
              "✅ PDF uploaded successfully (minimal version)")).
  - split; [reflexivity|]. repeat constructor.
  - apply reachable_step; [|apply reachable_init].
    split; [reflexivity|]. repeat constructor.
  - vm_compute. reflexivity.
Defined.

Lemma first_unused_all_taken env files names :
  Forall (fun name => is_Some (files !! temp_path env name)) names ->
  first_unused env files names = None.
Proof.
  induction 1 as [|name names [bytes Hname] _ IH]; [reflexivity|].
  cbn [first_unused]. now rewrite Hname.
Qed.

(** X27.  When every name [tempfile] tries is already the name of a file,
    an upload that passed both checks stores nothing: the handler raises
    HTTP 500 with the message of the [FileExistsError] and the map and the
    files are unchanged. *)
Theorem upload_pdf_all_names_taken env file st :
  str_endswith (filename file) ".pdf" = true ->
  (Z.of_nat (length (file_bytes file)) <= 10 * 1024 * 1024)%Z ->
  Forall (fun name => is_Some (fs st !! temp_path env name)) (candidate_names env) ->
  upload_pdf env file st
  = (Raise (HTTPException 500
       "❌ Failed to upload: [Errno 17] No usable temporary file name found"), st).
Proof.
  intros Hname Hsize Htaken. rewrite upload_pdf_unfold, Hname. cbn [negb].
  destruct (Z.ltb_spec max_size (Z.of_nat (length (file_bytes file)))) as [Hbig|_];
    [unfold max_size in Hbig; lia|].
  now rewrite (first_unused_all_taken _ _ _ Htaken).
Qed.

Lemma upload_pdf_all_names_taken_witness :
  upload_pdf (mkEnv None false false (fun _ => None) true (fun _ _ => None)
                "/tmp" ["abc"] (fun _ => None) (fun _ => 0) (fun _ => 0))
    sample_file sample_uploaded
  = (Raise (HTTPException 500
       "❌ Failed to upload: [Errno 17] No usable temporary file name found"),
     sample_uploaded).
Proof.
  apply upload_pdf_all_names_taken.
  - reflexivity.
  - vm_compute. discriminate.
  - repeat constructor. exists ["%"; "P"; "D"; "F"]%byte. vm_compute. reflexivity.
Defined.

Lemma endswith_upper_not_lower s :
  str_endswith s ".PDF" = true -> str_endswith s ".pdf" = false.
Proof.
  induction s as [|c r IH]; [discriminate|].
  cbn [str_endswith]. intros H. apply orb_true_iff in H as [H|H].
  - apply String.eqb_eq in H. injection H as -> ->. reflexivity.
  - rewrite (IH H), orb_false_r.
    destruct (String.eqb_spec (String c r) ".pdf") as [Heq|]; [|reflexivity].
    injection Heq as _ ->. discriminate H.
Qed.

(** X21.  The test of the file name is case sensitive: a file whose name
    ends in the upper-case extension [.PDF] is refused with HTTP 400 and
    nothing is stored. *)
Theorem upload_pdf_refuses_upper_case_extension env file st :
  str_endswith (filename file) ".PDF" = true ->
  upload_pdf env file st = (Raise (HTTPException 400 "❌ Only PDF files allowed"), st).
Proof.
  intros Hup. rewrite upload_pdf_unfold.
  now rewrite (endswith_upper_not_lower _ Hup).
Qed.

Lemma upload_pdf_refuses_upper_case_extension_witness :
  upload_pdf sample_env (mkUploadFile "REPORT.PDF" []) (initial_state ∅)
  = (Raise (HTTPException 400 "❌ Only PDF files allowed"), initial_state ∅).
Proof. apply upload_pdf_refuses_upper_case_extension. reflexivity. Defined.

(** X22.  The pipeline reads what was uploaded: after an upload that
    returns, with [pypdf] installed and the stored path not yet indexed,
    indexing the path stored for the returned identifier gives the page
    texts the reader extracts from exactly the uploaded payload (none if
    the reader fails on it). *)
Theorem upload_pdf_then_index env file st response st' env2 :
  upload_pdf env file st = (Return response, st') ->
  caches_ok st ->
  pypdf_importable env2 = true ->
  ∃ pdf_path,
    uploaded_pdfs st' !! up_pdf_id response = Some pdf_path
    ∧ (cache_contains pdf_path (pdf_cache st) = false ->
       ∃ st2, get_or_create_indexes env2 pdf_path st'
              = (Return (mkIndexData
                           (default [] (PdfReader_texts env2 pdf_path (file_bytes file)))
                           pdf_path), st2)).
Proof.
  intros Hu (Hp10 & Hpok & _) Hi.
  destruct (upload_pdf_returned _ _ _ _ _ Hu) as (_ & _ & pdf_path & _ & -> & ->).
  exists pdf_path. cbn [up_pdf_id uploaded_pdfs]. split; [apply lookup_insert_eq|].
  intros Hin.
  rewrite (get_or_create_indexes_miss env2 pdf_path _
             (extracted_texts env2
                (mkState (<[basename pdf_path := pdf_path]> (uploaded_pdfs st))
                         (<[pdf_path := file_bytes file]> (fs st))
                         (pdf_cache st) (query_cache st) (sessions st)) pdf_path));
    [|exact Hin|now apply load_pdf_chunks_importable].
  unfold extracted_texts. cbn [fs pdf_cache]. rewrite lookup_insert_eq.
  match goal with |- context [@setitem ?K ?V ?I ?p ?k ?v ?c] =>
    destruct (@setitem_ok K V I p k v c Hpok ltac:(lia)) as (c1 & -> & _) end.
  eauto.
Qed.

Lemma upload_pdf_then_index_witness :
  ∃ pdf_path,
    uploaded_pdfs sample_uploaded !! "tmpabc.pdf" = Some pdf_path
    ∧ (cache_contains pdf_path (pdf_cache (initial_state ∅)) = false ->
       ∃ st2, get_or_create_indexes sample_env pdf_path sample_uploaded
              = (Return (mkIndexData
                           (default [] (PdfReader_texts sample_env pdf_path
                                          (file_bytes sample_file)))
                           pdf_path), st2)).
Proof.
  apply (upload_pdf_then_index sample_env sample_file (initial_state ∅)
           (mkUploadResponse "tmpabc.pdf" "report.pdf"
              "✅ PDF uploaded successfully (minimal version)")
           sample_uploaded sample_env).
  - vm_compute. reflexivity.
  - apply initial_caches_ok.
  - reflexivity.
Defined.

(** ** Deletion, further *)

(** X23.  Deleting a known identifier whose file can be removed, or whose
    file is already gone, returns: the identifier leaves the map, the file
    leaves the disk, and every other identifier and every other file stay
    as they are. *)
Theorem delete_pdf_removes env st pdf_id pdf_path :
  uploaded_pdfs st !! pdf_id = Some pdf_path ->
  fs st !! pdf_path = None ∨ os_remove_error env pdf_path = None ->
  ∃ st',
    delete_pdf env pdf_id st
    = (Return (mkDeleteResponse ("✅ Deleted " +:+ pdf_id) pdf_id), st')
    ∧ uploaded_pdfs st' = delete pdf_id (uploaded_pdfs st)
    ∧ fs st' = delete pdf_path (fs st)
    ∧ uploaded_pdfs st' !! pdf_id = None ∧ fs st' !! pdf_path = None
    ∧ (∀ other, other ≠ pdf_id -> uploaded_pdfs st' !! other = uploaded_pdfs st !! other)
    ∧ (∀ other, other ≠ pdf_path -> fs st' !! other = fs st !! other).
Proof.
  intros Hid Hcan. rewrite delete_pdf_unfold, Hid. cbn zeta.
  assert (∀ st1 : State, uploaded_pdfs st1 = delete pdf_id (uploaded_pdfs st) ->
            fs st1 = delete pdf_path (fs st) ->
            uploaded_pdfs st1 = delete pdf_id (uploaded_pdfs st)
            ∧ fs st1 = delete pdf_path (fs st)
            ∧ uploaded_pdfs st1 !! pdf_id = None ∧ fs st1 !! pdf_path = None
            ∧ (∀ other, other ≠ pdf_id ->
                 uploaded_pdfs st1 !! other = uploaded_pdfs st !! other)
            ∧ (∀ other, other ≠ pdf_path -> fs st1 !! other = fs st !! other)) as Hshape.
  { intros st1 -> ->. rewrite !lookup_delete_eq. repeat split; try reflexivity;
      intros other Hne; now apply lookup_delete_ne. }
  destruct (fs st !! pdf_path) as [bytes|] eqn:Hfile.
  - destruct Hcan as [|Hrm]; [discriminate|]. rewrite Hrm.
    eexists. split; [reflexivity|]. now apply Hshape.
  - eexists. split; [now destruct (os_remove_error env pdf_path)|].
    apply Hshape; [reflexivity|]. cbn [set_uploaded_pdfs fs].
    symmetry. now apply delete_id.
Qed.

Lemma delete_pdf_removes_witness :
  ∃ st',
    delete_pdf sample_env_remove_fails "tmpabc.pdf" (set_fs (fun _ => ∅) sample_uploaded)
    = (Return (mkDeleteResponse ("✅ Deleted " +:+ "tmpabc.pdf") "tmpabc.pdf"), st')
    ∧ uploaded_pdfs st' = delete "tmpabc.pdf" (uploaded_pdfs (set_fs (fun _ => ∅) sample_uploaded))
    ∧ fs st' = delete "/tmp/tmpabc.pdf" (fs (set_fs (fun _ => ∅) sample_uploaded))
    ∧ uploaded_pdfs st' !! "tmpabc.pdf" = None ∧ fs st' !! "/tmp/tmpabc.pdf" = None
    ∧ (∀ other, other ≠ "tmpabc.pdf" ->
         uploaded_pdfs st' !! other
         = uploaded_pdfs (set_fs (fun _ => ∅) sample_uploaded) !! other)
    ∧ (∀ other, other ≠ "/tmp/tmpabc.pdf" ->
         fs st' !! other = fs (set_fs (fun _ => ∅) sample_uploaded) !! other).
Proof.
  apply delete_pdf_removes.
  - vm_compute. reflexivity.
  - left. vm_compute. reflexivity.
Defined.

(** X24.  An identifier can be deleted once: whatever the first deletion
    answered (done, unknown identifier, or HTTP 500 because the file could
    not be removed), a second deletion of the same identifier raises HTTP
    404 and changes nothing, and so does a query with it. *)
Theorem delete_pdf_twice env pdf_id st env2 :
  let st' := (delete_pdf env pdf_id st).2 in
  (∃ detail, delete_pdf env2 pdf_id st' = (Raise (HTTPException 404 detail), st'))
  ∧ (∀ question session_id,
       ∃ detail, query_pdf pdf_id question session_id st'
                 = (Raise (HTTPException 404 detail), st')).
Proof.
  cbn zeta.
  assert (uploaded_pdfs (delete_pdf env pdf_id st).2 !! pdf_id = None) as Hgone.
  { rewrite delete_pdf_unfold.
    destruct (uploaded_pdfs st !! pdf_id) as [path|] eqn:Hid; [|exact Hid].
    cbn zeta. destruct (fs st !! path); [destruct (os_remove_error env path)|];
      cbn [snd set_fs set_uploaded_pdfs uploaded_pdfs]; apply lookup_delete_eq. }
  split.
  - rewrite (delete_pdf_unfold env2), Hgone. eauto.
  - intros question session_id. rewrite query_pdf_unfold, Hgone. eauto.
Qed.

Lemma upload_pdf_keeps_earlier_uploads_size dir env file st response st' :
  env_ok dir env -> reachable dir st ->
  upload_pdf env file st = (Return response, st') ->
  size (uploaded_pdfs st') = S (size (uploaded_pdfs st)).
Proof.
  intros Henv Hreach Hu.
  destruct (upload_pdf_returned _ _ _ _ _ Hu) as (_ & _ & new_path & Hfirst & -> & ->).
  destruct (first_unused_id_fresh _ _ _ _ Henv Hreach Hfirst) as [Hid _].
  now apply map_size_insert_None.
Qed.

(** ** Counting and listing the uploads *)

Lemma health_check_unfold st :
  health_check st
  = (Return (mkHealthResponse "running" "Backend is up!"
               (Z.of_nat (size (uploaded_pdfs st)))), st).
Proof. reflexivity. Qed.

(** X25.  The number reported by [health_check] follows the uploads and
    the deletions: in a reachable state, an upload that returns raises it
    by one and an upload that is refused leaves it; deleting a known
    identifier lowers it by one, whether or not the file could be removed,
    and deleting an unknown one leaves it; [health_check] itself changes
    nothing. *)
Theorem health_check_follows_uploads dir env st :
  env_ok dir env -> reachable dir st ->
  ∃ n,
    health_check st = (Return (mkHealthResponse "running" "Backend is up!" n), st)
    ∧ (∀ file response st',
         upload_pdf env file st = (Return response, st') ->
         health_check st'
         = (Return (mkHealthResponse "running" "Backend is up!" (n + 1)), st'))
    ∧ (∀ file e st',
         upload_pdf env file st = (Raise e, st') ->
         health_check st' = (Return (mkHealthResponse "running" "Backend is up!" n), st'))
    ∧ (∀ env2 pdf_id,
         health_check (delete_pdf env2 pdf_id st).2
         = (Return (mkHealthResponse "running" "Backend is up!"
                      (if decide (is_Some (uploaded_pdfs st !! pdf_id)) then n - 1 else n)),
            (delete_pdf env2 pdf_id st).2)).
Proof.
  intros Henv Hreach. exists (Z.of_nat (size (uploaded_pdfs st))).
  split; [reflexivity|]. split; [|split].
  - intros file response st' Hu. rewrite health_check_unfold.
    rewrite (upload_pdf_keeps_earlier_uploads_size _ _ _ _ _ _ Henv Hreach Hu).
    do 3 f_equal. lia.
  - intros file e st' Hu. rewrite upload_pdf_unfold in Hu.
    destruct (negb _); [now injection Hu as <- <-|].
    destruct (_ <? _)%Z; [now injection Hu as <- <-|].
    destruct (first_unused _ _ _); [discriminate|now injection Hu as <- <-].
  - intros env2 pdf_id. rewrite health_check_unfold. do 3 f_equal.
    rewrite delete_pdf_unfold.
    destruct (uploaded_pdfs st !! pdf_id) as [path|] eqn:Hid.
    + rewrite decide_True by eauto.
      assert (size (delete pdf_id (uploaded_pdfs st)) = pred (size (uploaded_pdfs st)))
        as Hsize by (apply map_size_delete_Some; eauto).
      assert (size (uploaded_pdfs st) ≠ 0) as Hpos
        by (intros Hz; apply map_size_empty_inv in Hz; rewrite Hz, lookup_empty in Hid;
            discriminate).
      cbn zeta. destruct (fs st !! path); [destruct (os_remove_error env2 path)|];
        cbn [snd set_fs set_uploaded_pdfs uploaded_pdfs]; rewrite Hsize; lia.
    + rewrite decide_False by (intros [? ?]; discriminate). reflexivity.
Qed.

Lemma health_check_follows_uploads_witness :
  ∃ n,
    health_check sample_uploaded
    = (Return (mkHealthResponse "running" "Backend is up!" n), sample_uploaded)
    ∧ (∀ file response st',
         upload_pdf sample_env file sample_uploaded = (Return response, st') ->
         health_check st'
         = (Return (mkHealthResponse "running" "Backend is up!" (n + 1)), st'))
    ∧ (∀ file e st',
         upload_pdf sample_env file sample_uploaded = (Raise e, st') ->
         health_check st' = (Return (mkHealthResponse "running" "Backend is up!" n), st'))
    ∧ (∀ env2 pdf_id,
         health_check (delete_pdf env2 pdf_id sample_uploaded).2
         = (Return (mkHealthResponse "running" "Backend is up!"
                      (if decide (is_Some (uploaded_pdfs sample_uploaded !! pdf_id))
                       then n - 1 else n)),
            (delete_pdf env2 pdf_id sample_uploaded).2)).
Proof.
  apply (health_check_follows_uploads "/tmp" sample_env sample_uploaded).
  - split; [reflexivity|]. repeat constructor.
  - apply reachable_step; [|apply reachable_init].
    split; [reflexivity|]. repeat constructor.
Defined.

(** X26.  [list_pdfs] changes nothing and reports the uploads: its count is
    the length of its list and the number [health_check] reports, the list
    has no identifier twice, and an identifier is in the list exactly when
    a query with it returns instead of raising 404.  (The order of the list
    is not part of the statement.) *)
Theorem list_pdfs_lists_uploads st :
  ∃ listing health,
    list_pdfs st = (Return listing, st)
    ∧ health_check st = (Return health, st)
    ∧ list_count listing = Z.of_nat (length (list_pdfs_ids listing))
    ∧ list_count listing = health_uploaded_pdfs health
    ∧ NoDup (list_pdfs_ids listing)
    ∧ (∀ pdf_id question session_id,
         pdf_id ∈ list_pdfs_ids listing
         <-> ∃ answer, query_pdf pdf_id question session_id st = (Return answer, st)).
Proof.
  eexists _, _. split; [reflexivity|]. split; [reflexivity|].
  cbn [list_count list_pdfs_ids health_uploaded_pdfs].
  split; [now rewrite length_map, length_map_to_list|]. split; [reflexivity|].
  split; [apply NoDup_fst_map_to_list|].
  intros pdf_id question session_id. rewrite query_pdf_unfold. split.
  - intros Hin. apply list_elem_of_fmap in Hin as ([id path] & -> & Hin).
    apply elem_of_map_to_list in Hin. cbn [fst]. rewrite Hin. eauto.
  - intros [answer Hq].
    destruct (uploaded_pdfs st !! pdf_id) as [path|] eqn:Hid; [|discriminate].
    apply (list_elem_of_fmap_2 fst (map_to_list (uploaded_pdfs st)) (pdf_id, path)).
    now apply elem_of_map_to_list.
Qed.
